(** * Hot air gun station: persistence, calibration, history and power control

    A shallow embedding of the core of [hot_air_gun_station_V1.0.ino]
    (classes CONFIG, HOTGUN_CFG, HISTORY, PID and HOTGUN) and the
    properties of that code.

    The target is an ATmega328: [int] and [unsigned int] are 16 bits wide,
    [long] is 32 bits wide, [uint8_t] arithmetic wraps modulo 256, and
    structures are laid out little-endian without padding.  Every machine
    integer is a [Z] and every wrap-around is written out.  [float] is
    the IEEE 754 single-precision format, taken from the Standard
    Library's [SpecFloat]. *)

From Stdlib Require Import ZArith List Lia Bool QArith.
From Stdlib Require SpecFloat.
From stdpp Require Import base list.
Import ListNotations.

Local Open Scope Z_scope.

(** ** Machine arithmetic *)
Module Mach.

Definition u8 (z : Z) : Z := z mod 256.
Definition u16 (z : Z) : Z := z mod 65536.
Definition u32 (z : Z) : Z := z mod 4294967296.
Definition s16 (z : Z) : Z := (z + 32768) mod 65536 - 32768.
Definition s32 (z : Z) : Z := (z + 2147483648) mod 4294967296 - 2147483648.

(** Arduino's [constrain(amt, low, high)] macro. *)
Definition constrain (amt low high : Z) : Z :=
  if amt <? low then low else if amt >? high then high else amt.

(** Arduino's [long map(long x, long in_min, long in_max, long out_min,
    long out_max)]:
    [(x - in_min) * (out_max - out_min) / (in_max - in_min) + out_min],
    in 32-bit signed arithmetic with C's truncating division. *)
Definition map (x in_min in_max out_min out_max : Z) : Z :=
  s32 (Z.quot (s32 (s32 (x - in_min) * s32 (out_max - out_min)))
              (s32 (in_max - in_min)) + out_min).

(** Read the cell [i] of a C array held as a list. *)
Definition at_ (l : list Z) (i : nat) : Z := default 0 (l !! i).

End Mach.

(** ** The EEPROM device

    [EEPROM.read], [EEPROM.write] and [EEPROM.length] belong to the Arduino
    core.  The device is an array of byte cells.  What an access past the
    last cell does depends on the part: on the AVR the address register has
    no bits above the array size, so the address is taken modulo the length
    ([Aliased]); the other reading is that such a write is lost and such a
    read gives the erased value 0xFF ([Dropped]).  Both are modelled. *)
Module EEPROM.

Inductive oob := Aliased | Dropped.

Record t := mk { policy : oob; cells : list Z }.

Definition length (e : t) : Z := Mach.u16 (Z.of_nat (List.length (cells e))).

Definition phys (e : t) (addr : Z) : option nat :=
  let n := Z.of_nat (List.length (cells e)) in
  if addr <? n then Some (Z.to_nat addr)
  else match policy e with
       | Aliased => if n =? 0 then None else Some (Z.to_nat (addr mod n))
       | Dropped => None
       end.

Definition read (e : t) (addr : Z) : Z :=
  match phys e addr with
  | Some i => default 255 (cells e !! i)
  | None => 255
  end.

Definition write (e : t) (addr : Z) (v : Z) : t :=
  match phys e addr with
  | Some i => mk (policy e) (<[i := Mach.u8 v]> (cells e))
  | None => e
  end.

End EEPROM.

(** ** class CONFIG: the record log in the EEPROM *)
Module CONFIG.
Import Mach.

(** [struct cfg], 8 bytes. *)
Record cfg := mkcfg {
  calibration : Z;   (* uint32_t *)
  temp : Z;          (* uint16_t *)
  fan : Z;           (* uint8_t  *)
  off_timeout : Z    (* uint8_t  *)
}.

Definition sizeof_cfg : Z := 8.

(** The bytes of a [struct cfg] as [(byte * )&Config] sees them. *)
Definition cfg_bytes (c : cfg) : list Z :=
  [ u8 (calibration c); u8 (Z.shiftr (calibration c) 8);
    u8 (Z.shiftr (calibration c) 16); u8 (Z.shiftr (calibration c) 24);
    u8 (temp c); u8 (Z.shiftr (temp c) 8);
    u8 (fan c); u8 (off_timeout c) ].

(** [memcpy(&Config, p, sizeof(struct cfg))]. *)
Definition cfg_of_bytes (p : list Z) : cfg :=
  mkcfg (at_ p 0 + Z.shiftl (at_ p 1) 8 + Z.shiftl (at_ p 2) 16
         + Z.shiftl (at_ p 3) 24)
        (at_ p 4 + Z.shiftl (at_ p 5) 8)
        (at_ p 6) (at_ p 7).

Record t := mk {
  can_write : bool;
  buffRecords : Z;
  rAddr : Z;
  wAddr : Z;
  eLength : Z;
  nextRecID : Z;
  record_size : Z;
  Config : cfg
}.

Definition set_Config (st : t) (c : cfg) : t :=
  mk (can_write st) (buffRecords st) (rAddr st) (wAddr st) (eLength st)
     (nextRecID st) (record_size st) c.

Definition set_nextRecID (st : t) (id : Z) : t :=
  mk (can_write st) (buffRecords st) (rAddr st) (wAddr st) (eLength st)
     id (record_size st) (Config st).

(** [for (record_size = 8; record_size < rs; record_size <<= 1);] *)
Fixpoint grow_record_size (fuel : nat) (record_size rs : Z) : Z :=
  match fuel with
  | O => record_size
  | S f => if record_size <? rs
           then grow_record_size f (u8 (Z.shiftl record_size 1)) rs
           else record_size
  end.

(** The constructor; [Config] is left as it was in memory. *)
Definition CONFIG (mem : cfg) : t :=
  let rs := u8 (sizeof_cfg + 5) in
  mk false 0 0 0 0 0 (grow_record_size 8 8 rs) mem.

(** [summ <<= 2; summ += b;] on a [uint8_t]. *)
Definition summ_step (summ b : Z) : Z := u8 (u8 (Z.shiftl summ 2) + b).

Definition checksum (bytes : list Z) : Z :=
  u8 (fold_left summ_step bytes 0 + 1).

(** [bool CONFIG::readRecord(uint16_t addr, uint32_t &recID)]:
    [Some (recID, Config)] when the checksum is correct, the two objects
    that the code writes in that case; [None] when it returns false. *)
Definition readRecord (e : EEPROM.t) (record_size : Z) (addr : Z)
  : option (Z * cfg) :=
  let Buff := List.map (fun i => EEPROM.read e (u16 (addr + Z.of_nat i)))
                       (seq 0 (Z.to_nat record_size)) in
  let summ := checksum (firstn (Z.to_nat (sizeof_cfg + 4)) Buff) in
  if summ =? at_ Buff (Z.to_nat (record_size - 1)) then
    let ts := fold_left (fun ts i => Z.lor (u32 (Z.shiftl ts 8)) (at_ Buff i))
                        [3; 2; 1; 0]%nat 0 in
    Some (ts, cfg_of_bytes (firstn (Z.to_nat sizeof_cfg) (skipn 4 Buff)))
  else None.

(** The locals of the scan loop of [init]. *)
Record scan_acc := mkacc {
  records : Z;
  minRecID : Z;
  minRecAddr : Z;
  maxRecID : Z;
  maxRecAddr : Z;
  scanned : cfg      (* [Config], rewritten by every valid [readRecord] *)
}.

Definition scan_hit (a : scan_acc) (addr recID : Z) (c : cfg) : scan_acc :=
  let lo := minRecID a >? recID in
  let hi := maxRecID a <? recID in
  mkacc (u8 (records a + 1))
        (if lo then recID else minRecID a) (if lo then addr else minRecAddr a)
        (if hi then recID else maxRecID a) (if hi then addr else maxRecAddr a)
        c.

(** [for (uint16_t addr = 0; addr < eLength; addr += record_size)] with
    the [break] on the first record that does not decode.  [None] is a
    loop that is still running when the fuel is spent. *)
Fixpoint scan (fuel : nat) (e : EEPROM.t) (eLength record_size addr : Z)
         (a : scan_acc) : option scan_acc :=
  match fuel with
  | O => None
  | S f =>
      if addr <? eLength then
        match readRecord e record_size addr with
        | Some (recID, c) =>
            scan f e eLength record_size (u16 (addr + record_size))
                 (scan_hit a addr recID c)
        | None => Some a
        end
      else Some a
  end.

Definition scan_start (c : cfg) : scan_acc := mkacc 0 4294967295 0 0 0 c.

Definition scan_all (e : EEPROM.t) (st : t) : option scan_acc :=
  scan (S (Z.to_nat (EEPROM.length e))) e (EEPROM.length e) (record_size st)
       0 (scan_start (Config st)).

(** [void CONFIG::init(void)] *)
Definition init (e : EEPROM.t) (st : t) : option t :=
  let eLength := EEPROM.length e in
  match scan_all e st with
  | None => None
  | Some a =>
      if records a =? 0 then
        Some (mk true (buffRecords st) 0 0 eLength 0 (record_size st)
                 (scanned a))
      else
        let rAddr := maxRecAddr a in
        let wAddr :=
          if records a <? Z.quot eLength (record_size st) then
            let w := u16 (rAddr + record_size st) in
            if w >? eLength then 0 else w
          else minRecAddr a in
        Some (mk true (buffRecords st) rAddr wAddr eLength 0
                 (record_size st) (scanned a))
  end.

(** [void CONFIG::updateConfig(struct cfg &Cfg)] *)
Definition updateConfig (st : t) (c : cfg) : t := set_Config st c.

(** The two byte loops of [save]: the state is the device, [startWrite],
    [summ] and [nxt]. *)
Definition save_id_byte (s : EEPROM.t * Z * Z * Z) (_ : nat)
  : EEPROM.t * Z * Z * Z :=
  let '(e, startWrite, summ, nxt) := s in
  (EEPROM.write e startWrite (Z.land nxt 255),
   u16 (startWrite + 1),
   u8 (u8 (Z.shiftl summ 2) + nxt),
   Z.shiftr nxt 8).

Definition save_cfg_byte (s : EEPROM.t * Z * Z) (b : Z) : EEPROM.t * Z * Z :=
  let '(e, startWrite, summ) := s in
  (EEPROM.write e startWrite b, u16 (startWrite + 1), summ_step summ b).

(** [bool CONFIG::save(void)]: the device, the object and the result. *)
Definition save (e : EEPROM.t) (st : t) : EEPROM.t * t * bool :=
  if negb (can_write st) then (e, st, can_write st)
  else
    let nextRecID := if nextRecID st =? 0 then 1 else nextRecID st in
    let '(e1, startWrite, summ, _) :=
      fold_left save_id_byte (seq 0 4) (e, wAddr st, 0, nextRecID) in
    let '(e2, _, summ2) :=
      fold_left save_cfg_byte (cfg_bytes (Config st)) (e1, startWrite, summ) in
    let summ3 := u8 (summ2 + 1) in
    let e3 := EEPROM.write e2 (u16 (wAddr st + record_size st - 1)) summ3 in
    let w := u16 (wAddr st + record_size st) in
    let w' := if w >? EEPROM.length e3 then 0 else w in
    (e3,
     mk (can_write st) (buffRecords st) (wAddr st) w' (eLength st)
        (u32 (nextRecID + 1)) (record_size st) (Config st),
     true).

(** [bool CONFIG::saveConfig(struct cfg &Cfg)] *)
Definition saveConfig (e : EEPROM.t) (st : t) (c : cfg) : EEPROM.t * t * bool :=
  save e (updateConfig st c).

(** [bool CONFIG::load(void)] *)
Definition load (e : EEPROM.t) (st : t) : t * bool :=
  match readRecord e (record_size st) (rAddr st) with
  | Some (recID, c) =>
      (mk (can_write st) (buffRecords st) (rAddr st) (wAddr st) (eLength st)
          (u32 (recID + 1)) (record_size st) c, true)
  | None => (set_nextRecID st (u32 (nextRecID st + 1)), false)
  end.

End CONFIG.

(** ** class HOTGUN_CFG: calibration and presets *)
Module HOTGUN_CFG.
Import Mach.

Definition temp_minC : Z := 150.
Definition temp_maxC : Z := 500.
Definition temp_ambC : Z := 25.
Definition temp_tip : list Z := [200; 300; 400].

Definition def_tip : list Z := [587; 751; 850].
Definition min_temp : Z := 50.
Definition max_temp : Z := 900.
Definition def_temp : Z := 600.
Definition def_fan : Z := 64.
Definition ambient_temp : Z := 0.
Definition ambient_tempC : Z := 25.

Record t := mk {
  base : CONFIG.t;        (* the CONFIG part of the object *)
  t_tip : list Z          (* uint16_t t_tip[3] *)
}.

Definition set_cfg (st : t) (c : CONFIG.cfg) : t :=
  mk (CONFIG.set_Config (base st) c) (t_tip st).

(** The packing of [setDefaults]. *)
Definition pack_defaults : Z :=
  let c := Z.land (at_ def_tip 2) 1023 in
  let c := u32 (Z.shiftl c 10) in
  let c := Z.lor c (Z.land (at_ def_tip 1) 1023) in
  let c := u32 (Z.shiftl c 10) in
  Z.lor c (Z.land (at_ def_tip 0) 1023).

(** [void HOTGUN_CFG::setDefaults(bool Write)] *)
Definition setDefaults (e : EEPROM.t) (st : t) (Write : bool) : EEPROM.t * t :=
  let c := CONFIG.Config (base st) in
  let st1 := set_cfg st (CONFIG.mkcfg pack_defaults def_temp def_fan
                                       (CONFIG.off_timeout c)) in
  if Write then
    let '(e', b, _) := CONFIG.save e (base st1) in (e', mk b (t_tip st1))
  else (e, st1).

(** [void HOTGUN_CFG::init(void)] *)
Definition init (e : EEPROM.t) (st : t) : option t :=
  match CONFIG.init e (base st) with
  | None => None
  | Some b0 =>
      let '(b1, ok) := CONFIG.load e b0 in
      let st1 := mk b1 (t_tip st) in
      let st2 := if negb ok then snd (setDefaults e st1 false) else st1 in
      let cd := CONFIG.calibration (CONFIG.Config (base st2)) in
      let t0 := Z.land cd 1023 in
      let cd := Z.shiftr cd 10 in
      let t1 := Z.land cd 1023 in
      let cd := Z.shiftr cd 10 in
      let t2 := Z.land cd 1023 in
      let st3 := mk (base st2) (<[2%nat := t2]> (<[1%nat := t1]> (<[0%nat := t0]> (t_tip st2)))) in
      if (t0 >=? t1) || (t1 >=? t2) then
        let st4 := snd (setDefaults e st3 false) in
        Some (mk (base st4)
                 (<[2%nat := at_ def_tip 2]>
                    (<[1%nat := at_ def_tip 1]>
                       (<[0%nat := at_ def_tip 0]> (t_tip st4)))))
      else Some st3
  end.

(** [bool HOTGUN_CFG::isCold(uint16_t temp)] *)
Definition isCold (st : t) (temp : Z) : bool :=
  (temp <? at_ (t_tip st) 0)
  && (map temp ambient_temp (at_ (t_tip st) 0) ambient_tempC (at_ temp_tip 0)
      <? 50).

Definition tempPreset (st : t) : Z := CONFIG.temp (CONFIG.Config (base st)).
Definition fanPreset (st : t) : Z := CONFIG.fan (CONFIG.Config (base st)).

(** [uint16_t HOTGUN_CFG::tempHuman(uint16_t temp)]; it reads only
    [t_tip]. *)
Definition tempHuman (tt : list Z) (temp : Z) : Z :=
  if temp <=? ambient_temp then ambient_tempC
  else if temp <? at_ tt 0 then
    u16 (map temp ambient_temp (at_ tt 0) ambient_tempC (at_ temp_tip 0))
  else if temp >=? at_ tt 1 then
    u16 (map temp (at_ tt 1) (at_ tt 2) (at_ temp_tip 1) (at_ temp_tip 2))
  else
    u16 (map temp (at_ tt 0) (at_ tt 1) (at_ temp_tip 0) (at_ temp_tip 1)).

(** The correction loop of [tempInternal]:
    [for (i = 0; i < 10; ++i) { tH = tempHuman(temp); if (tH <= t) break; --temp; }] *)
Fixpoint correct (n : nat) (tt : list Z) (t temp : Z) : Z :=
  match n with
  | O => temp
  | S k => if tempHuman tt temp <=? t then temp
           else correct k tt t (u16 (temp - 1))
  end.

(** [uint16_t HOTGUN_CFG::tempInternal(uint16_t t)] *)
Definition tempInternal (tt : list Z) (t : Z) : Z :=
  let t := constrain t temp_minC temp_maxC in
  let temp :=
    if t >=? at_ temp_tip 1 then
      u16 (map (u16 (t + 1)) (at_ temp_tip 1) (at_ temp_tip 2) (at_ tt 1) (at_ tt 2))
    else
      u16 (map (u16 (t + 1)) (at_ temp_tip 0) (at_ temp_tip 1) (at_ tt 0) (at_ tt 1)) in
  correct 10 tt t temp.

(** [void HOTGUN_CFG::save(uint16_t temp, uint8_t fanSpeed)] *)
Definition save (e : EEPROM.t) (st : t) (temp fanSpeed : Z) : EEPROM.t * t :=
  let c := CONFIG.Config (base st) in
  let st1 := set_cfg st (CONFIG.mkcfg (CONFIG.calibration c)
                                       (constrain temp min_temp max_temp)
                                       fanSpeed (CONFIG.off_timeout c)) in
  let '(e', b, _) := CONFIG.save e (base st1) in (e', mk b (t_tip st1)).


(** [void HOTGUN_CFG::getCalibrationData(uint16_t tip[3])] *)
Definition getCalibrationData (st : t) (tip : list Z) : list Z :=
  <[2%nat := at_ (t_tip st) 2]>
    (<[1%nat := at_ (t_tip st) 1]> (<[0%nat := at_ (t_tip st) 0]> tip)).

(** [void HOTGUN_CFG::saveCalibrationData(uint16_t tip[3])] *)
Definition saveCalibrationData (st : t) (tip : list Z) : t * list Z :=
  let tip := if at_ tip 2 >? max_temp then <[2%nat := max_temp]> tip else tip in
  let cd := Z.land (at_ tip 2) 1023 in
  let cd := u32 (Z.shiftl cd 10) in
  let cd := Z.lor cd (Z.land (at_ tip 1) 1023) in
  let cd := u32 (Z.shiftl cd 10) in
  let cd := Z.lor cd (at_ tip 0) in
  let c := CONFIG.Config (base st) in
  let st1 := set_cfg st (CONFIG.mkcfg cd (CONFIG.temp c) (CONFIG.fan c)
                                       (CONFIG.off_timeout c)) in
  let tt := <[0%nat := at_ tip 0]> (t_tip st1) in
  let tt := <[2%nat := at_ tip 1]> tt in
  let tt := <[2%nat := at_ tip 2]> tt in
  (mk (base st1) tt, tip).

End HOTGUN_CFG.

(** ** [float]: IEEE 754 binary32, 24 bits of precision *)
Module Float32.

Definition prec : Z := 24.
Definition emax : Z := 128.

Definition t : Type := SpecFloat.spec_float.

(** [(float)z] for an integer [z]: the nearest single-precision number,
    ties to even. *)
Definition of_Z (z : Z) : t := SpecFloat.binary_normalize prec emax z 0 false.

(** [x / y] on [float]. *)
Definition div (x y : t) : t := SpecFloat.SFdiv prec emax x y.

End Float32.

(** ** class HISTORY: the ring buffer of the last samples *)
Module HISTORY.
Import Mach.

Definition H_LENGTH : Z := 16.

Record t := mk {
  queue : list Z;     (* volatile uint16_t queue[H_LENGTH] *)
  len : Z;            (* volatile byte *)
  index : Z           (* volatile byte *)
}.

(** [void init(void) { len = 0; }] *)
Definition init (h : t) : t := mk (queue h) 0 (index h).

(** [void HISTORY::put(uint16_t item)] *)
Definition put (h : t) (item : Z) : t :=
  if len h <? H_LENGTH then
    mk (<[Z.to_nat (len h) := u16 item]> (queue h)) (u8 (len h + 1)) (index h)
  else
    let i := u8 (index h + 1) in
    mk (<[Z.to_nat (index h) := u16 item]> (queue h)) (len h)
       (if i >=? H_LENGTH then 0 else i).

(** [uint16_t HISTORY::last(void)] *)
Definition last (h : t) : Z :=
  if len h =? 0 then 0
  else
    let i := u8 (len h - 1) in
    let i := if index h =? 0 then i else u8 (index h - 1) in
    at_ (queue h) (Z.to_nat i).

Definition top (h : t) : Z := at_ (queue h) 0.

(** [for (uint8_t i = 0; i < len; ++i) sum += queue[i];] on a [uint32_t]. *)
Definition sum_queue (h : t) : Z :=
  fold_left (fun sum i => u32 (sum + at_ (queue h) i))
            (seq 0 (Z.to_nat (len h))) 0.

(** [uint16_t HISTORY::average(void)] *)
Definition average (h : t) : Z :=
  if len h =? 0 then 0
  else if len h =? 1 then at_ (queue h) 0
  else
    let sum := sum_queue h in
    let sum := u32 (sum + Z.shiftr (len h) 1) in
    let sum := Z.quot sum (len h) in
    u16 sum.

(** The loop of [dispersion]: [long q = queue[i]; q -= avg; q *= q; sum += q;] *)
Definition sum_squares (h : t) (avg : Z) : Z :=
  fold_left (fun sum i =>
               let q := at_ (queue h) i in
               let q := s32 (q - avg) in
               let q := s32 (q * q) in
               u32 (sum + q))
            (seq 0 (Z.to_nat (len h))) 0.

(** The operand [sum] of the final division of [dispersion]. *)
Definition dispersion_sum (h : t) : Z :=
  u32 (sum_squares h (average h) + Z.shiftl (len h) 1).

(** [float HISTORY::dispersion(void)]: [return 1000] converts the
    constant to [float]; otherwise the result is the single-precision
    quotient [(float)sum / (float)len]. *)
Definition dispersion (h : t) : Float32.t :=
  if len h <? 3 then Float32.of_Z 1000
  else Float32.div (Float32.of_Z (dispersion_sum h)) (Float32.of_Z (len h)).

End HISTORY.

(** ** class PID: the regulator *)
Module PID.
Import Mach.

Definition denominator_p : Z := 11.

Record t := mk {
  temp_h0 : Z;          (* int  *)
  temp_h1 : Z;          (* int  *)
  pid_iterate : bool;
  i_summ : Z;           (* long *)
  power : Z;            (* long *)
  Kp : Z;               (* long *)
  Ki : Z;
  Kd : Z
}.

(** The constructor sets the three coefficients only. *)
Definition PID (mem : t) : t :=
  mk (temp_h0 mem) (temp_h1 mem) (pid_iterate mem) (i_summ mem) (power mem)
     638 196 1.

(** [void PID::resetPID(int temp)] *)
Definition resetPID (p : t) (temp : Z) : t :=
  mk 0 (if (temp >? 0) && (temp <? 1000) then temp else 0)
     false 0 0 (Kp p) (Ki p) (Kd p).

(** [int PID::changePID(uint8_t p, int k)] *)
Definition changePID (st : t) (p k : Z) : t * Z :=
  if p =? 1 then
    let v := if k >=? 0 then k else Kp st in
    (mk (temp_h0 st) (temp_h1 st) (pid_iterate st) (i_summ st) (power st)
        v (Ki st) (Kd st), s16 v)
  else if p =? 2 then
    let v := if k >=? 0 then k else Ki st in
    (mk (temp_h0 st) (temp_h1 st) (pid_iterate st) (i_summ st) (power st)
        (Kp st) v (Kd st), s16 v)
  else if p =? 3 then
    let v := if k >=? 0 then k else Kd st in
    (mk (temp_h0 st) (temp_h1 st) (pid_iterate st) (i_summ st) (power st)
        (Kp st) (Ki st) v, s16 v)
  else (st, 0).

(** [long PID::reqPower(int temp_set, int temp_curr)]: the object and the
    returned power.  [int] expressions wrap at 16 bits, [long] ones at 32. *)
Definition reqPower (st : t) (temp_set temp_curr : Z) : t * Z :=
  let st1 :=
    if temp_h0 st =? 0 then
      let near := s16 (temp_set - temp_curr) <? 30 in
      let clear := near && negb (pid_iterate st) in
      let it := if clear then true else pid_iterate st in
      let i0 := if clear then 0 else i_summ st in
      let i1 := s32 (i0 + s16 (temp_set - temp_curr)) in
      let pw := s32 (s32 (Kp st * s16 (temp_set - temp_curr))
                     + s32 (Ki st * i1)) in
      mk (temp_h0 st) (temp_h1 st) it i1 pw (Kp st) (Ki st) (Kd st)
    else
      let kp := s32 (Kp st * s16 (temp_h1 st - temp_curr)) in
      let ki := s32 (Ki st * s16 (temp_set - temp_curr)) in
      let kd := s32 (Kd st * s16 (s16 (temp_h0 st + temp_curr)
                                  - s16 (2 * temp_h1 st))) in
      let delta_p := s32 (s32 (kp + ki) + kd) in
      mk (temp_h0 st) (temp_h1 st) (pid_iterate st) (i_summ st)
         (s32 (power st + delta_p)) (Kp st) (Ki st) (Kd st) in
  let h0 := if pid_iterate st1 then temp_h1 st1 else temp_h0 st1 in
  let st2 := mk h0 temp_curr (pid_iterate st1) (i_summ st1) (power st1)
                (Kp st1) (Ki st1) (Kd st1) in
  let pwr := s32 (power st2 + Z.shiftl 1 (denominator_p - 1)) in
  (st2, Z.shiftr pwr denominator_p).

End PID.

(** ** class HOTGUN: the burst-fire power controller *)
Module HOTGUN.
Import Mach.

Definition period : Z := 100.
Definition min_fan_speed : Z := 30.
Definition temp_gun_cold : Z := 80.

Record t := mk {
  pid : PID.t;            (* the PID part of the object *)
  power : Z;              (* long *)
  temp_set : Z;           (* uint16_t *)
  fan_speed : Z;          (* uint8_t *)
  h_power : HISTORY.t;
  h_temp : HISTORY.t;
  cnt : Z;                (* volatile uint8_t *)
  actual_power : Z;       (* volatile uint8_t *)
  active : bool;
  on : bool;
  fan : bool;
  fix_power : bool;
  chill : bool;
  last_period : Z;        (* uint32_t *)
  gun_pin : bool;         (* the level last written to the heater pin *)
  fan_duty : Z            (* OCR1A, the duty last given to the fan *)
}.

Definition set_pid (s : t) (v : PID.t) : t :=
  mk v (power s) (temp_set s) (fan_speed s) (h_power s) (h_temp s) (cnt s)
     (actual_power s) (active s) (on s) (fan s) (fix_power s) (chill s)
     (last_period s) (gun_pin s) (fan_duty s).
Definition set_power (s : t) (v : Z) : t :=
  mk (pid s) v (temp_set s) (fan_speed s) (h_power s) (h_temp s) (cnt s)
     (actual_power s) (active s) (on s) (fan s) (fix_power s) (chill s)
     (last_period s) (gun_pin s) (fan_duty s).
Definition set_temp_set (s : t) (v : Z) : t :=
  mk (pid s) (power s) v (fan_speed s) (h_power s) (h_temp s) (cnt s)
     (actual_power s) (active s) (on s) (fan s) (fix_power s) (chill s)
     (last_period s) (gun_pin s) (fan_duty s).
Definition set_fan_speed (s : t) (v : Z) : t :=
  mk (pid s) (power s) (temp_set s) v (h_power s) (h_temp s) (cnt s)
     (actual_power s) (active s) (on s) (fan s) (fix_power s) (chill s)
     (last_period s) (gun_pin s) (fan_duty s).
Definition set_h_power (s : t) (v : HISTORY.t) : t :=
  mk (pid s) (power s) (temp_set s) (fan_speed s) v (h_temp s) (cnt s)
     (actual_power s) (active s) (on s) (fan s) (fix_power s) (chill s)
     (last_period s) (gun_pin s) (fan_duty s).
Definition set_h_temp (s : t) (v : HISTORY.t) : t :=
  mk (pid s) (power s) (temp_set s) (fan_speed s) (h_power s) v (cnt s)
     (actual_power s) (active s) (on s) (fan s) (fix_power s) (chill s)
     (last_period s) (gun_pin s) (fan_duty s).
Definition set_cnt (s : t) (v : Z) : t :=
  mk (pid s) (power s) (temp_set s) (fan_speed s) (h_power s) (h_temp s) v
     (actual_power s) (active s) (on s) (fan s) (fix_power s) (chill s)
     (last_period s) (gun_pin s) (fan_duty s).
Definition set_actual_power (s : t) (v : Z) : t :=
  mk (pid s) (power s) (temp_set s) (fan_speed s) (h_power s) (h_temp s) (cnt s)
     v (active s) (on s) (fan s) (fix_power s) (chill s)
     (last_period s) (gun_pin s) (fan_duty s).
Definition set_active (s : t) (v : bool) : t :=
  mk (pid s) (power s) (temp_set s) (fan_speed s) (h_power s) (h_temp s) (cnt s)
     (actual_power s) v (on s) (fan s) (fix_power s) (chill s)
     (last_period s) (gun_pin s) (fan_duty s).
Definition set_on (s : t) (v : bool) : t :=
  mk (pid s) (power s) (temp_set s) (fan_speed s) (h_power s) (h_temp s) (cnt s)
     (actual_power s) (active s) v (fan s) (fix_power s) (chill s)
     (last_period s) (gun_pin s) (fan_duty s).
Definition set_fan (s : t) (v : bool) : t :=
  mk (pid s) (power s) (temp_set s) (fan_speed s) (h_power s) (h_temp s) (cnt s)
     (actual_power s) (active s) (on s) v (fix_power s) (chill s)
     (last_period s) (gun_pin s) (fan_duty s).
Definition set_fix_power (s : t) (v : bool) : t :=
  mk (pid s) (power s) (temp_set s) (fan_speed s) (h_power s) (h_temp s) (cnt s)
     (actual_power s) (active s) (on s) (fan s) v (chill s)
     (last_period s) (gun_pin s) (fan_duty s).
Definition set_chill (s : t) (v : bool) : t :=
  mk (pid s) (power s) (temp_set s) (fan_speed s) (h_power s) (h_temp s) (cnt s)
     (actual_power s) (active s) (on s) (fan s) (fix_power s) v
     (last_period s) (gun_pin s) (fan_duty s).
Definition set_last_period (s : t) (v : Z) : t :=
  mk (pid s) (power s) (temp_set s) (fan_speed s) (h_power s) (h_temp s) (cnt s)
     (actual_power s) (active s) (on s) (fan s) (fix_power s) (chill s)
     v (gun_pin s) (fan_duty s).
(** [digitalWrite(gun_pin, level)] *)
Definition digitalWrite (s : t) (level : bool) : t :=
  mk (pid s) (power s) (temp_set s) (fan_speed s) (h_power s) (h_temp s) (cnt s)
     (actual_power s) (active s) (on s) (fan s) (fix_power s) (chill s)
     (last_period s) level (fan_duty s).
(** [hg_fan.duty(d)] *)
Definition duty (s : t) (d : Z) : t :=
  mk (pid s) (power s) (temp_set s) (fan_speed s) (h_power s) (h_temp s) (cnt s)
     (actual_power s) (active s) (on s) (fan s) (fix_power s) (chill s)
     (last_period s) (gun_pin s) (u8 d).

(** [bool HOTGUN::syncCB(void)]; [millis] is the clock reading of the call. *)
Definition syncCB (s : t) (millis : Z) : t * bool :=
  let s := set_cnt s (u8 (cnt s + 1)) in
  let s :=
    if cnt s >=? period then
      let s := set_cnt s 0 in
      let s := set_last_period s (u32 millis) in
      if negb (active s) && (actual_power s >? 0) then
        set_active (digitalWrite s true) true
      else s
    else if cnt s >=? actual_power s then
      if active s then set_active (digitalWrite s false) false else s
    else s in
  (s, cnt s =? 0).

(** [void HOTGUN::switchPower(bool On)] *)
Definition switchPower (s : t) (On : bool) : t :=
  let s := set_on s On in
  if negb (on s) then set_actual_power (digitalWrite s false) 0
  else
    let s := if fan_speed s <? min_fan_speed
             then set_fan_speed s min_fan_speed else s in
    set_fan (duty s (fan_speed s)) true.

(** The end of [keepTemp]: keep the fan running till the gun is cold. *)
Definition keep_fan (s : t) (temp : Z) : t :=
  if fan s then
    if (actual_power s =? 0) && (temp <=? temp_gun_cold)
    then set_fan (duty s 0) false else s
  else
    if temp >? temp_gun_cold
    then set_fan (duty s (fan_speed s)) true else s.

(** The regulating step of [keepTemp]. *)
Definition regulate (s : t) (temp : Z) : t :=
  let '(p, pw) := PID.reqPower (pid s) (s16 (temp_set s)) (s16 temp) in
  let s := set_power (set_pid s p) pw in
  let s := set_actual_power s (u8 (constrain (power s) 0 period)) in
  set_h_power s (HISTORY.put (h_power s) (actual_power s)).

(** [void HOTGUN::keepTemp(void)]; [sample] is what [analogRead] gives. *)
Definition keepTemp (s : t) (sample : Z) : t :=
  let temp := u16 sample in
  let s := set_h_temp s (HISTORY.put (h_temp s) temp) in
  let s :=
    if negb (chill s) && on s && (temp >? u16 (temp_set s + 20)) then
      set_chill (set_actual_power (digitalWrite s false) 0) true
    else s in
  if on s then
    if chill s then
      if temp <? u16 (temp_set s - 8) then
        let s := set_chill s false in
        let s := set_pid s (PID.resetPID (pid s) (-1)) in
        keep_fan (regulate s temp) temp
      else
        set_actual_power (set_power s 0) 0
    else keep_fan (regulate s temp) temp
  else
    let s := if negb (fix_power s)
             then digitalWrite (set_actual_power s 0) false else s in
    keep_fan s temp.

(** [void HOTGUN::fixPower(uint8_t Power)] *)
Definition fixPower (s : t) (Power : Z) : t :=
  if Power =? 0 then set_actual_power (set_fix_power s false) 0
  else
    let Power := if Power >? period then period else Power in
    let s := set_power s Power in
    set_fix_power (set_actual_power s (u8 (power s))) true.

(** The states after each of a run of [keepTemp] calls. *)
Fixpoint keepTemp_run (s : t) (samples : list Z) : list t :=
  match samples with
  | [] => []
  | x :: xs => let s' := keepTemp s x in s' :: keepTemp_run s' xs
  end.

(** A run of zero-cross edges: for each edge the heater pin after it and
    what [syncCB] returned, and the state after the last edge. *)
Fixpoint syncCB_run (s : t) (clock : list Z) : list (bool * bool) * t :=
  match clock with
  | [] => ([], s)
  | now :: rest =>
      let '(s', r) := syncCB s now in
      let '(tr, sf) := syncCB_run s' rest in
      ((gun_pin s', r) :: tr, sf)
  end.

(** [bool areExternalInterrupts(void) { return millis() - last_period < period * 10; }] *)
Definition areExternalInterrupts (s : t) (millis : Z) : bool :=
  u32 (u32 millis - last_period s) <? period * 10.

(** [uint16_t getCurrTemp(void) { return h_temp.last(); }] *)
Definition getCurrTemp (s : t) : Z := HISTORY.last (h_temp s).

End HOTGUN.

(** ** Concrete devices and objects used below *)

(** A [struct cfg] whose bytes are all zero. *)
Definition blank_cfg : CONFIG.cfg := CONFIG.mkcfg 0 0 0 0.

(** An erased EEPROM of [n] cells: every cell reads 0xFF. *)
Definition erased (n : nat) (p : EEPROM.oob) : EEPROM.t :=
  EEPROM.mk p (repeat 255 n).

(** One control cycle of [p] powered ticks out of [HOTGUN.period], as a
    list of (heater pin, result of [syncCB]) per zero-cross edge: the
    wrap-around edge, the rest of the powered ticks, the idle ticks. *)
Definition burst_cycle (p : nat) : list (bool * bool) :=
  (true, true) :: repeat (true, false) (p - 1) ++ repeat (false, false) (100 - p).

(** A controller that is on and regulating at the setpoint 600, with the
    regulator freshly reset. *)
Definition regulating_600 : HOTGUN.t :=
  HOTGUN.mk (PID.resetPID (PID.mk 0 0 false 0 0 638 196 1) (-1)) 0 600 64
            (HISTORY.mk (repeat 0 16) 0 0) (HISTORY.mk (repeat 0 16) 0 0)
            0 0 false true true false false 0 false 64.

(** The controller is on, chilling at the setpoint [S], with no power applied. *)
Definition Chilling (S : Z) (s : HOTGUN.t) : Prop :=
  HOTGUN.on s = true /\ HOTGUN.chill s = true
  /\ HOTGUN.actual_power s = 0 /\ HOTGUN.temp_set s = S.

(** The invariant of the raw calibration references. *)
Definition increasing (tt : list Z) : Prop :=
  Mach.at_ tt 0 < Mach.at_ tt 1 /\ Mach.at_ tt 1 < Mach.at_ tt 2.

(** The three 10-bit fields of a packed calibration word, low field first. *)
Definition unpack (cd : Z) : list Z :=
  [Z.land cd 1023; Z.land (Z.shiftr cd 10) 1023;
   Z.land (Z.shiftr (Z.shiftr cd 10) 10) 1023].

(** The HOTGUN_CFG object as constructed, before [init]. *)
Definition unloaded_cfg : HOTGUN_CFG.t :=
  HOTGUN_CFG.mk (CONFIG.CONFIG blank_cfg) [0; 0; 0].

(** A HOTGUN_CFG object whose references are the built-in defaults. *)
Definition default_refs_cfg : HOTGUN_CFG.t :=
  HOTGUN_CFG.mk (CONFIG.CONFIG blank_cfg) HOTGUN_CFG.def_tip.

(** A run of [put] calls. *)
Definition put_all (h : HISTORY.t) (l : list Z) : HISTORY.t :=
  fold_left HISTORY.put l h.

(** The sum of a list, and the sum of its squared deviations from [m]. *)
Definition total (l : list Z) : Z := fold_right Z.add 0 l.

Definition sqdev (l : list Z) (m : Z) : Z :=
  fold_right (fun x acc => (x - m) * (x - m) + acc) 0 l.

(** The population variance of a list about its exact mean [total l / n],
    as the fraction of sum (n x - total l)^2 over n^3. *)
Definition pop_variance (l : list Z) : Q :=
  let n := Z.of_nat (length l) in
  Qmake (sqdev (List.map (Z.mul n) l) (total l)) (Z.to_pos (n * n * n)).

(** The rational number a finite [float] stands for. *)
Definition float_value (f : Float32.t) : option Q :=
  match f with
  | SpecFloat.S754_zero _ => Some 0%Q
  | SpecFloat.S754_finite s m e =>
      Some ((if s then -1 else 1) * inject_Z (Z.pos m) * Qpower 2 e)%Q
  | _ => None
  end.

(** An empty history buffer in zeroed memory. *)
Definition empty_history : HISTORY.t := HISTORY.mk (repeat 0 16) 0 0.

(** Flip bit [k] of the byte [i] of a list of bytes. *)
Definition flip_at (i : nat) (k : Z) (bytes : list Z) : list Z :=
  <[i := Z.lxor (Mach.at_ bytes i) (2 ^ k)]> bytes.

(** The same on a cell of the device. *)
Definition flip_cell (addr : nat) (k : Z) (e : EEPROM.t) : EEPROM.t :=
  EEPROM.mk (EEPROM.policy e) (flip_at addr k (EEPROM.cells e)).

(** The checksum loop without the 8-bit wrap. *)
Definition lin (l : list Z) (a : Z) : Z := fold_left (fun s b => 4 * s + b) l a.

(** The CONFIG object after [init] on an erased 1024-byte EEPROM, holding
    the configuration [c]. *)
Definition initialised (c : CONFIG.cfg) : CONFIG.t :=
  CONFIG.updateConfig
    (default (CONFIG.CONFIG blank_cfg)
             (CONFIG.init (erased 1024 EEPROM.Aliased) (CONFIG.CONFIG blank_cfg)))
    c.

Definition sample_cfg : CONFIG.cfg := CONFIG.mkcfg 891679307 600 64 0.

(** The device after one [save] of [sample_cfg]. *)
Definition saved_once : EEPROM.t :=
  fst (fst (CONFIG.save (erased 1024 EEPROM.Aliased) (initialised sample_cfg))).

(** The addresses of [n] consecutive slots from [addr]. *)
Fixpoint slots_from (n : nat) (addr rs : Z) : list Z :=
  match n with
  | O => []
  | S k => addr :: slots_from k (addr + rs) rs
  end.

(** The addresses of all the slots of a region of [eLength] bytes. *)
Definition slot_addrs (eLength rs : Z) : list Z :=
  slots_from (Z.to_nat ((eLength + rs - 1) / rs)) 0 rs.

(** The records decoded at the given addresses, in order, up to the first
    address that does not decode. *)
Fixpoint valid_prefix (e : EEPROM.t) (rs : Z) (addrs : list Z)
  : list (Z * Z * CONFIG.cfg) :=
  match addrs with
  | [] => []
  | a :: rest =>
      match CONFIG.readRecord e rs a with
      | Some (recID, c) => (a, recID, c) :: valid_prefix e rs rest
      | None => []
      end
  end.

Definition entry_addr (x : Z * Z * CONFIG.cfg) : Z := fst (fst x).
Definition entry_id (x : Z * Z * CONFIG.cfg) : Z := snd (fst x).

(** The scan locals after a list of decoded records. *)
Definition hits (a : CONFIG.scan_acc) (p : list (Z * Z * CONFIG.cfg))
  : CONFIG.scan_acc :=
  fold_left (fun a x => CONFIG.scan_hit a (entry_addr x) (entry_id x) (snd x)) p a.

(** A run of [saveConfig] calls. *)
Definition save_all (e : EEPROM.t) (st : CONFIG.t) (cs : list CONFIG.cfg)
  : EEPROM.t * CONFIG.t :=
  fold_left (fun s c => fst (CONFIG.saveConfig (fst s) (snd s) c)) cs (e, st).

(** The [i]-th configuration saved in the runs below. *)
Definition nth_cfg (i : nat) : CONFIG.cfg :=
  CONFIG.mkcfg HOTGUN_CFG.pack_defaults (500 + Z.of_nat i) 64 0.

(** The device and the object after [init] on an erased 1024-byte EEPROM
    (64 slots) and [n] saves. *)
Definition after_saves (p : EEPROM.oob) (n : nat) : EEPROM.t * CONFIG.t :=
  match CONFIG.init (erased 1024 p) (CONFIG.CONFIG blank_cfg) with
  | Some st => save_all (erased 1024 p) st (List.map nth_cfg (seq 1 n))
  | None => (erased 1024 p, CONFIG.CONFIG blank_cfg)
  end.

(** The record ID decoded at each of the 64 slots. *)
Definition stored_ids (e : EEPROM.t) : list (option Z) :=
  List.map (fun a => option_map fst (CONFIG.readRecord e 16 a))
           (slot_addrs 1024 16).

(** Three records saved, then one bit of the last payload byte of the
    record in slot 1 flipped. *)
Definition damaged_middle : EEPROM.t :=
  flip_cell 27 0 (fst (after_saves EEPROM.Aliased 3)).

(** The raw value that [tempInternal] starts its correction from, for the
    references [r0], [r1], [r2]: the inverse interpolation of [x + 1] on
    the segment that [x] selects. *)
Definition start_raw (r0 r1 r2 x : Z) : Z :=
  if x >=? 300 then r1 + (x + 1 - 300) * (r2 - r1) / 100
  else r0 + (x + 1 - 200) * (r1 - r0) / 100.

(** The applied power is within the control period. *)
Definition power_in_period (s : HOTGUN.t) : Prop :=
  0 <= HOTGUN.actual_power s <= HOTGUN.period.

(** The number of edges of a trace after which the heater pin is high. *)
Definition high_ticks (tr : list (bool * bool)) : nat :=
  length (List.filter fst tr).

(** The states after each edge of a run of [syncCB], with the clock reading
    of the edge. *)
Fixpoint syncCB_states (s : HOTGUN.t) (clock : list Z) : list (Z * HOTGUN.t) :=
  match clock with
  | [] => []
  | now :: rest =>
      let s' := fst (HOTGUN.syncCB s now) in (now, s') :: syncCB_states s' rest
  end.

(** Successive clock readings, starting after [t0], never decrease and are
    at most [gap] apart. *)
Fixpoint paced (gap t0 : Z) (clock : list Z) : Prop :=
  match clock with
  | [] => True
  | t :: rest => t0 <= t <= t0 + gap /\ paced gap t rest
  end.

(** The controller switched off, with the fan still running after use. *)
Definition cooling_down : HOTGUN.t :=
  HOTGUN.mk (PID.resetPID (PID.mk 0 0 false 0 0 638 196 1) (-1)) 0 600 64
            (HISTORY.mk (repeat 0 16) 0 0) (HISTORY.mk (repeat 0 16) 0 0)
            0 0 false false true false false 0 false 64.

(** The controller switched off and cold, the fan stopped. *)
Definition idle_cold : HOTGUN.t :=
  HOTGUN.mk (PID.resetPID (PID.mk 0 0 false 0 0 638 196 1) (-1)) 0 600 64
            (HISTORY.mk (repeat 0 16) 0 0) (HISTORY.mk (repeat 0 16) 0 0)
            0 0 false false false false false 0 false 0.

(** The ring buffer holds the samples [l], put one after the other into an
    empty buffer: the count and the ring position follow the number of
    samples, and each of the last 16 samples sits in the cell of its rank
    modulo 16. *)
Definition ring_of (l : list Z) (h : HISTORY.t) : Prop :=
  length (HISTORY.queue h) = 16%nat
  /\ HISTORY.len h = Z.min (Z.of_nat (length l)) 16
  /\ HISTORY.index h
     = (if (length l <? 16)%nat then 0 else Z.of_nat (length l mod 16))
  /\ forall j : nat, (j < length l)%nat -> (length l <= j + 16)%nat ->
                     HISTORY.queue h !! (j mod 16)%nat = l !! j.

(** The regulator after a run of [reqPower] calls at one setpoint. *)
Definition reqPower_run (p : PID.t) (temp_set : Z) (samples : list Z) : PID.t :=
  fold_left (fun p x => fst (PID.reqPower p temp_set x)) samples p.

(** The regulator is in the direct law with the error sum [acc]. *)
Definition direct_law (Kp Ki acc : Z) (p : PID.t) : Prop :=
  PID.temp_h0 p = 0 /\ PID.pid_iterate p = false /\ PID.i_summ p = acc
  /\ PID.Kp p = Kp /\ PID.Ki p = Ki.

(** A regulator with the coefficients of the constructor. *)
Definition default_pid : PID.t := PID.PID (PID.mk 0 0 false 0 0 0 0 0).

(** Bytes written to consecutive cells from the address [a]. *)
Fixpoint write_bytes (e : EEPROM.t) (a : Z) (bs : list Z) : EEPROM.t :=
  match bs with
  | [] => e
  | b :: rest => write_bytes (EEPROM.write e a b) (a + 1) rest
  end.

(** The four bytes of a record ID, low byte first, as [save] takes them
    off [nxt]. *)
Definition id_bytes (n : Z) : list Z :=
  [ Z.land n 255;
    Z.land (Z.shiftr n 8) 255;
    Z.land (Z.shiftr (Z.shiftr n 8) 8) 255;
    Z.land (Z.shiftr (Z.shiftr (Z.shiftr n 8) 8) 8) 255 ].

(** The fields of a [struct cfg] fit their C types. *)
Definition cfg_in_range (c : CONFIG.cfg) : Prop :=
  0 <= CONFIG.calibration c < 4294967296
  /\ 0 <= CONFIG.temp c < 65536
  /\ 0 <= CONFIG.fan c < 256
  /\ 0 <= CONFIG.off_timeout c < 256.

(** The ID that [save] writes. *)
Definition written_id (st : CONFIG.t) : Z :=
  if CONFIG.nextRecID st =? 0 then 1 else CONFIG.nextRecID st.

(** The device that [save] leaves. *)
Definition saved_device (e : EEPROM.t) (st : CONFIG.t) : EEPROM.t :=
  let w := CONFIG.wAddr st in
  let e1 := write_bytes e w (id_bytes (written_id st)) in
  let e2 := write_bytes e1 (w + 4) (CONFIG.cfg_bytes (CONFIG.Config st)) in
  EEPROM.write e2 (w + 15)
    (CONFIG.checksum (id_bytes (written_id st)
                      ++ CONFIG.cfg_bytes (CONFIG.Config st))).

(** A CONFIG object after [init], about to write its third record into
    slot 2 of a 1024-byte device. *)
Definition writer_at_32 : CONFIG.t :=
  CONFIG.mk true 0 16 32 1024 3 16 sample_cfg.

(** The same inside a HOTGUN_CFG object. *)
Definition preset_writer : HOTGUN_CFG.t :=
  HOTGUN_CFG.mk writer_at_32 HOTGUN_CFG.def_tip.

(** * Properties *)

(** ** Machine arithmetic *)
Section MachFacts.
Import Mach.

Lemma u8_small (z : Z) : 0 <= z < 256 -> u8 z = z.
Proof. intros H. unfold u8. apply Z.mod_small. exact H. Qed.

Lemma u16_small (z : Z) : 0 <= z < 65536 -> u16 z = z.
Proof. intros H. unfold u16. apply Z.mod_small. exact H. Qed.

Lemma u32_small (z : Z) : 0 <= z < 4294967296 -> u32 z = z.
Proof. intros H. unfold u32. apply Z.mod_small. exact H. Qed.

Lemma s16_small (z : Z) : -32768 <= z < 32768 -> s16 z = z.
Proof. intros H. unfold s16. rewrite Z.mod_small; lia. Qed.

Lemma s32_small (z : Z) : -2147483648 <= z < 2147483648 -> s32 z = z.
Proof. intros H. unfold s32. rewrite Z.mod_small; lia. Qed.

Lemma u8_range (z : Z) : 0 <= u8 z < 256.
Proof. unfold u8. apply Z.mod_pos_bound. lia. Qed.

Lemma u16_range (z : Z) : 0 <= u16 z < 65536.
Proof. unfold u16. apply Z.mod_pos_bound. lia. Qed.

Lemma constrain_range (amt low high : Z) :
  low <= high -> low <= constrain amt low high <= high.
Proof.
  intros H. unfold constrain.
  destruct (Z.ltb_spec amt low); [lia|].
  destruct (Z.gtb_spec amt high); lia.
Qed.

End MachFacts.

(** Decide the integer tests of a goal from the context. *)
Ltac ztest :=
  repeat match goal with
    | |- context [?a <? ?b] =>
        first [ rewrite (proj2 (Z.ltb_lt a b)) by lia
              | rewrite (proj2 (Z.ltb_ge a b)) by lia ]
    | |- context [?a >? ?b] =>
        rewrite (Z.gtb_ltb a b);
        first [ rewrite (proj2 (Z.ltb_lt b a)) by lia
              | rewrite (proj2 (Z.ltb_ge b a)) by lia ]
    | |- context [?a <=? ?b] =>
        first [ rewrite (proj2 (Z.leb_le a b)) by lia
              | rewrite (proj2 (Z.leb_gt a b)) by lia ]
    | |- context [?a >=? ?b] =>
        rewrite (Z.geb_leb a b);
        first [ rewrite (proj2 (Z.leb_le b a)) by lia
              | rewrite (proj2 (Z.leb_gt b a)) by lia ]
    | |- context [?a =? ?b] =>
        first [ rewrite (proj2 (Z.eqb_eq a b)) by lia
              | rewrite (proj2 (Z.eqb_neq a b)) by lia ]
    end.

(** ** CONFIG::save before CONFIG::init *)
Section SaveBeforeInit.

Lemma constructor_cannot_write (mem : CONFIG.cfg) :
  CONFIG.can_write (CONFIG.CONFIG mem) = false.
Proof. reflexivity. Qed.

Lemma updateConfig_can_write (st : CONFIG.t) (c : CONFIG.cfg) :
  CONFIG.can_write (CONFIG.updateConfig st c) = CONFIG.can_write st.
Proof. reflexivity. Qed.

(** C10: while [can_write] is still false, as the constructor leaves it,
    [save] returns false, writes no byte of the EEPROM and leaves the
    read address, the write address and the next record ID as they were:
    the device and the whole object come back unchanged. *)
Theorem save_before_init_fails_atomically (e : EEPROM.t) (st : CONFIG.t) :
  CONFIG.can_write st = false ->
  CONFIG.save e st = (e, st, false).
Proof.
  intros H. unfold CONFIG.save. rewrite H. reflexivity.
Qed.

Lemma save_before_init_witness :
  CONFIG.can_write (CONFIG.CONFIG blank_cfg) = false
  /\ CONFIG.save (erased 1024 EEPROM.Aliased) (CONFIG.CONFIG blank_cfg)
     = (erased 1024 EEPROM.Aliased, CONFIG.CONFIG blank_cfg, false).
Proof.
  split; [reflexivity|].
  apply (save_before_init_fails_atomically (erased 1024 EEPROM.Aliased)
           (CONFIG.CONFIG blank_cfg)).
  reflexivity.
Defined.

End SaveBeforeInit.

(** Reduce the field reads of the HOTGUN object after field writes. *)
Ltac hg_fields :=
  cbn [HOTGUN.pid HOTGUN.power HOTGUN.temp_set HOTGUN.fan_speed HOTGUN.h_power
       HOTGUN.h_temp HOTGUN.cnt HOTGUN.actual_power HOTGUN.active HOTGUN.on
       HOTGUN.fan HOTGUN.fix_power HOTGUN.chill HOTGUN.last_period
       HOTGUN.gun_pin HOTGUN.fan_duty
       HOTGUN.set_pid HOTGUN.set_power HOTGUN.set_temp_set HOTGUN.set_fan_speed
       HOTGUN.set_h_power HOTGUN.set_h_temp HOTGUN.set_cnt
       HOTGUN.set_actual_power HOTGUN.set_active HOTGUN.set_on HOTGUN.set_fan
       HOTGUN.set_fix_power HOTGUN.set_chill HOTGUN.set_last_period
       HOTGUN.digitalWrite HOTGUN.duty negb andb] in *.

(** ** HOTGUN::syncCB: burst firing *)
Section BurstFire.
Import Mach HOTGUN.

Lemma syncCB_run_app (c1 c2 : list Z) : forall s : t,
  syncCB_run s (c1 ++ c2) =
  (fst (syncCB_run s c1) ++ fst (syncCB_run (snd (syncCB_run s c1)) c2),
   snd (syncCB_run (snd (syncCB_run s c1)) c2)).
Proof.
  induction c1 as [|now rest IH]; intros s; cbn [syncCB_run app fst snd].
  - destruct (syncCB_run s c2); reflexivity.
  - destruct (syncCB s now) as [s' r].
    rewrite IH.
    destruct (syncCB_run s' rest) as [tr sf]. reflexivity.
Qed.

(** The wrap-around edge. *)
Lemma syncCB_wrap (s : t) (now : Z) :
  cnt s = 99 -> active s = false -> 0 < actual_power s ->
  exists s', syncCB s now = (s', true)
    /\ cnt s' = 0 /\ active s' = true /\ gun_pin s' = true
    /\ actual_power s' = actual_power s.
Proof.
  intros Hc Ha Hp. unfold syncCB, period. destruct s; simpl in *; subst.
  change (u8 (99 + 1)) with 100. cbn -[Z.gtb].
  ztest. cbn. eexists; split; [reflexivity|]. cbn. auto.
Qed.

(** An edge inside the powered part of the cycle. *)
Lemma syncCB_powered (s : t) (now : Z) :
  0 <= cnt s -> cnt s + 1 < actual_power s -> actual_power s <= 100 ->
  exists s', syncCB s now = (s', false)
    /\ cnt s' = cnt s + 1 /\ active s' = active s /\ gun_pin s' = gun_pin s
    /\ actual_power s' = actual_power s.
Proof.
  intros Hc Hlt Hp. unfold syncCB, period. destruct s; simpl in *.
  rewrite (u8_small (cnt0 + 1)) by lia. hg_fields.
  ztest. hg_fields. ztest. eexists; split; [reflexivity|]. hg_fields. auto.
Qed.

(** An edge at or after the tick that reaches the applied power. *)
Lemma syncCB_idle (s : t) (now : Z) :
  0 <= cnt s -> actual_power s <= cnt s + 1 -> cnt s + 1 < 100 ->
  exists s', syncCB s now = (s', false)
    /\ cnt s' = cnt s + 1 /\ active s' = false
    /\ gun_pin s' = (if active s then false else gun_pin s)
    /\ actual_power s' = actual_power s.
Proof.
  intros Hc Hle Hlt. unfold syncCB, period. destruct s; simpl in *.
  rewrite (u8_small (cnt0 + 1)) by lia. hg_fields.
  ztest. destruct active0; hg_fields; ztest;
    (eexists; split; [reflexivity|]); hg_fields; auto.
Qed.

(** [k] edges inside the powered part keep the heater on. *)
Lemma powered_run (clock : list Z) : forall s : t,
  active s = true -> gun_pin s = true ->
  0 <= cnt s -> cnt s + Z.of_nat (length clock) < actual_power s ->
  actual_power s <= 100 ->
  fst (syncCB_run s clock) = repeat (true, false) (length clock)
  /\ cnt (snd (syncCB_run s clock)) = cnt s + Z.of_nat (length clock)
  /\ active (snd (syncCB_run s clock)) = true
  /\ gun_pin (snd (syncCB_run s clock)) = true
  /\ actual_power (snd (syncCB_run s clock)) = actual_power s.
Proof.
  induction clock as [|now rest IH]; intros s Ha Hg Hc Hlt Hp.
  - simpl. repeat split; auto. lia.
  - simpl length in *.
    destruct (syncCB_powered s now) as (s' & E & C & A & G & P); try lia.
    cbn [syncCB_run]. rewrite E.
    destruct (IH s') as (T & C' & A' & G' & P'); try congruence; try lia.
    destruct (syncCB_run s' rest) as [tr sf]. cbn [fst snd repeat] in *.
    rewrite G, Hg, T. repeat split; auto; try congruence. lia.
Qed.

(** Once the heater is off, the idle edges leave it off. *)
Lemma idle_run (clock : list Z) : forall s : t,
  active s = false -> gun_pin s = false ->
  0 <= cnt s -> actual_power s <= cnt s + 1 ->
  cnt s + Z.of_nat (length clock) < 100 ->
  fst (syncCB_run s clock) = repeat (false, false) (length clock)
  /\ cnt (snd (syncCB_run s clock)) = cnt s + Z.of_nat (length clock)
  /\ active (snd (syncCB_run s clock)) = false
  /\ gun_pin (snd (syncCB_run s clock)) = false
  /\ actual_power (snd (syncCB_run s clock)) = actual_power s.
Proof.
  induction clock as [|now rest IH]; intros s Ha Hg Hc Hle Hlt.
  - simpl. repeat split; auto. lia.
  - simpl length in *.
    destruct (syncCB_idle s now) as (s' & E & C & A & G & P); try lia.
    cbn [syncCB_run]. rewrite E. rewrite Ha in G.
    destruct (IH s') as (T & C' & A' & G' & P'); try congruence; try lia.
    destruct (syncCB_run s' rest) as [tr sf]. cbn [fst snd repeat] in *.
    rewrite G, Hg, T. repeat split; auto; try congruence. lia.
Qed.

(** One whole cycle at an applied power [p], [1 <= p < 100]. *)
Lemma one_cycle (p : nat) (s : t) (clock : list Z) :
  (1 <= p < 100)%nat ->
  cnt s = 99 -> active s = false -> actual_power s = Z.of_nat p ->
  length clock = 100%nat ->
  fst (syncCB_run s clock) = burst_cycle p
  /\ cnt (snd (syncCB_run s clock)) = 99
  /\ active (snd (syncCB_run s clock)) = false
  /\ gun_pin (snd (syncCB_run s clock)) = false
  /\ actual_power (snd (syncCB_run s clock)) = Z.of_nat p.
Proof.
  intros Hp Hc Ha Hpow Hlen.
  destruct clock as [|now rest]; [discriminate|].
  simpl in Hlen.
  destruct (syncCB_wrap s now) as (s0 & E & C0 & A0 & G0 & P0);
    try assumption; try lia.
  assert (Hsplit : rest = firstn (p - 1) rest ++ skipn (p - 1) rest)
    by (symmetry; apply firstn_skipn).
  set (on_part := firstn (p - 1) rest) in *.
  set (off_part := skipn (p - 1) rest) in *.
  assert (Hon : length on_part = (p - 1)%nat)
    by (unfold on_part; rewrite length_firstn; lia).
  assert (Hoff : length off_part = (100 - p)%nat)
    by (unfold off_part; rewrite length_skipn; lia).
  destruct off_part as [|edge off_rest] eqn:Eoff; [simpl in Hoff; lia|].
  simpl in Hoff.
  destruct (powered_run on_part s0) as (T1 & C1 & A1 & G1 & P1);
    try assumption; try lia.
  set (s1 := snd (syncCB_run s0 on_part)) in *.
  destruct (syncCB_idle s1 edge) as (s2 & E2 & C2 & A2 & G2 & P2); try lia.
  rewrite A1 in G2.
  destruct (idle_run off_rest s2) as (T3 & C3 & A3 & G3 & P3);
    try assumption; try lia.
  cbn [syncCB_run]. rewrite E. rewrite Hsplit. rewrite syncCB_run_app.
  fold s1. cbn [syncCB_run]. rewrite E2.
  destruct (syncCB_run s2 off_rest) as [tr3 s3] eqn:E3.
  cbn [fst snd] in *. rewrite G0, T1, G2, T3, Hon.
  unfold burst_cycle. repeat split; try congruence; try lia.
  f_equal. f_equal.
  replace (100 - p)%nat with (S (length off_rest)) by lia. reflexivity.
Qed.

(** C2: with [period] = 100 and [actual_power] held at 30, a run of
    [syncCB] over the edges of [n] whole cycles, started where the next
    edge is the wrap-around, repeats one pattern: the heater pin goes
    high at the wrap-around edge, the only edge at which [syncCB] returns
    true, stays high for 30 ticks, goes low at the tick that reaches
    [actual_power] and stays low for the other 70; every cycle ends in the
    state it started from. *)
Theorem syncCB_burst_pattern (n : nat) : forall (s : t) (clock : list Z),
  cnt s = 99 -> active s = false -> actual_power s = 30 ->
  length clock = (100 * n)%nat ->
  fst (syncCB_run s clock) = concat (repeat (burst_cycle 30) n)
  /\ cnt (snd (syncCB_run s clock)) = 99
  /\ active (snd (syncCB_run s clock)) = false
  /\ actual_power (snd (syncCB_run s clock)) = 30.
Proof.
  induction n as [|n IH]; intros s clock Hc Ha Hp Hlen.
  - destruct clock; [|discriminate]. cbn. auto.
  - assert (Hsplit : clock = firstn 100 clock ++ skipn 100 clock)
      by (symmetry; apply firstn_skipn).
    assert (H1 : length (firstn 100 clock) = 100%nat)
      by (rewrite length_firstn; lia).
    assert (H2 : length (skipn 100 clock) = (100 * n)%nat)
      by (rewrite length_skipn; lia).
    destruct (one_cycle 30 s (firstn 100 clock)) as (T & C & A & G & P);
      try assumption; try lia.
    destruct (IH (snd (syncCB_run s (firstn 100 clock))) (skipn 100 clock))
      as (T' & C' & A' & P'); try assumption.
    rewrite Hsplit, syncCB_run_app. cbn [fst snd].
    rewrite T, T'. cbn [repeat concat]. auto.
Qed.

Lemma syncCB_burst_pattern_witness :
  let s := mk (PID.mk 0 0 false 0 0 638 196 1) 0 600 64
              (HISTORY.mk (repeat 0 16) 0 0) (HISTORY.mk (repeat 0 16) 0 0)
              99 30 false true true false false 0 false 64 in
  let clock := List.map Z.of_nat (seq 1 100) in
  fst (syncCB_run s clock) = concat (repeat (burst_cycle 30) 1)
  /\ cnt (snd (syncCB_run s clock)) = 99
  /\ active (snd (syncCB_run s clock)) = false
  /\ actual_power (snd (syncCB_run s clock)) = 30.
Proof.
  intros s clock.
  apply (syncCB_burst_pattern 1 s clock); reflexivity.
Defined.

End BurstFire.

(** ** HOTGUN::keepTemp: the thermal cutoff *)
Section ThermalCutoff.
Import Mach HOTGUN.

Lemma keep_fan_fields (s : t) (temp : Z) :
  pid (keep_fan s temp) = pid s /\ chill (keep_fan s temp) = chill s
  /\ actual_power (keep_fan s temp) = actual_power s
  /\ on (keep_fan s temp) = on s /\ temp_set (keep_fan s temp) = temp_set s.
Proof.
  unfold keep_fan.
  destruct (fan s);
    [destruct ((actual_power s =? 0) && (temp <=? temp_gun_cold))
    |destruct (temp >? temp_gun_cold)];
    hg_fields; auto.
Qed.

Lemma regulate_fields (s : t) (temp : Z) :
  let r := PID.reqPower (pid s) (s16 (temp_set s)) (s16 temp) in
  pid (regulate s temp) = fst r
  /\ actual_power (regulate s temp) = u8 (constrain (snd r) 0 period)
  /\ chill (regulate s temp) = chill s /\ on (regulate s temp) = on s
  /\ temp_set (regulate s temp) = temp_set s.
Proof.
  unfold regulate.
  destruct (PID.reqPower (pid s) (s16 (temp_set s)) (s16 temp)) as [p pw].
  hg_fields. cbn [fst snd]. auto.
Qed.

(** The sample that trips the cutoff. *)
Lemma keepTemp_trip (s : t) (x : Z) :
  on s = true -> chill s = false ->
  8 <= temp_set s <= 65515 -> temp_set s + 20 < x <= 65535 ->
  Chilling (temp_set s) (keepTemp s x) /\ gun_pin (keepTemp s x) = false
  /\ pid (keepTemp s x) = pid s.
Proof.
  intros Hon Hch HS Hx. unfold keepTemp, Chilling.
  repeat progress (hg_fields; rewrite ?Hon, ?Hch;
                   rewrite ?u16_small by lia; ztest).
  auto.
Qed.

(** A sample that is not yet below the release level. *)
Lemma keepTemp_hold (s : t) (x : Z) :
  on s = true -> chill s = true ->
  8 <= temp_set s <= 65535 -> temp_set s - 8 <= x <= 65535 ->
  Chilling (temp_set s) (keepTemp s x) /\ pid (keepTemp s x) = pid s.
Proof.
  intros Hon Hch HS Hx. unfold keepTemp, Chilling.
  repeat progress (hg_fields; rewrite ?Hon, ?Hch;
                   rewrite ?u16_small by lia; ztest).
  auto.
Qed.

(** The sample that releases the cutoff. *)
Lemma keepTemp_release (s : t) (x : Z) :
  on s = true -> chill s = true ->
  8 <= temp_set s <= 65535 -> 0 <= x < temp_set s - 8 ->
  let r := PID.reqPower (PID.resetPID (pid s) (-1))
                        (s16 (temp_set s)) (s16 x) in
  chill (keepTemp s x) = false
  /\ pid (keepTemp s x) = fst r
  /\ actual_power (keepTemp s x) = u8 (constrain (snd r) 0 period).
Proof.
  intros Hon Hch HS Hx. unfold keepTemp.
  repeat progress (hg_fields; rewrite ?Hon, ?Hch;
                   rewrite ?u16_small by lia; ztest).
  match goal with
  | |- context [keep_fan (regulate ?s1 x) x] =>
      destruct (keep_fan_fields (regulate s1 x) x) as (P & C & A & _ & _);
      destruct (regulate_fields s1 x) as (P' & A' & C' & _ & _)
  end.
  hg_fields. cbv zeta. rewrite P, C, A, P', A', C'. auto.
Qed.

Lemma last_cons_default {A : Type} (l : list A) : forall a d : A,
  List.last (a :: l) d = List.last l a.
Proof.
  induction l as [|b l IH]; intros a d; [reflexivity|].
  change (List.last (a :: b :: l) d) with (List.last (b :: l) d).
  rewrite (IH b d), (IH b a). reflexivity.
Qed.

(** Chilling is kept over any run of samples at or above the release
    level. *)
Lemma chilling_run (S : Z) (hot : list Z) : forall s : t,
  8 <= S <= 65535 -> Chilling S s ->
  Forall (fun x => S - 8 <= x <= 65535) hot ->
  Forall (Chilling S) (keepTemp_run s hot)
  /\ Chilling S (List.last (keepTemp_run s hot) s)
  /\ pid (List.last (keepTemp_run s hot) s) = pid s.
Proof.
  induction hot as [|x xs IH]; intros s HS Hs Hhot.
  - cbn. auto.
  - inversion Hhot as [|? ? Hx Hxs]; subst.
    destruct Hs as (Hon & Hch & Hap & Hts).
    destruct (keepTemp_hold s x) as (K & Kp); try assumption; try lia.
    rewrite Hts in K.
    destruct (IH (keepTemp s x) HS K Hxs) as (F & L & Lp).
    cbn [keepTemp_run]. split; [constructor; assumption|].
    rewrite last_cons_default.
    split; [assumption | congruence].
Qed.

(** C1 as stated fails at a sample of exactly S+20: the test is
    [temp > temp_set + 20], so the controller keeps regulating. *)
Lemma cutoff_at_margin_counterexample :
  on regulating_600 = true /\ chill regulating_600 = false
  /\ temp_set regulating_600 + 20 <= 620
  /\ ~ (actual_power (keepTemp regulating_600 620) = 0
        /\ chill (keepTemp regulating_600 620) = true).
Proof.
  repeat split; try reflexivity; try (cbn; lia).
  intros [_ H]. vm_compute in H. discriminate H.
Qed.

(** C1, amended: for a setpoint S with 8 <= S <= 65515 (so that neither
    S-8 nor S+20 wraps in 16 bits), if the controller is on and not
    chilling and a sample is strictly above S+20, then after that
    [keepTemp] call [actual_power] is 0 and the controller is Chilling;
    over any further samples at or above S-8 every [keepTemp] call leaves
    [actual_power] at 0 and the controller Chilling; and the first sample
    strictly below S-8 clears Chilling, resets the PID state and applies
    the power that [reqPower] asks for from that reset state, clamped to
    [0, period]. *)
Theorem keepTemp_thermal_cutoff (s : t) (x0 : Z) (hot : list Z) (cold : Z) :
  on s = true -> chill s = false ->
  8 <= temp_set s <= 65515 ->
  temp_set s + 20 < x0 <= 65535 ->
  Forall (fun x => temp_set s - 8 <= x <= 65535) hot ->
  0 <= cold < temp_set s - 8 ->
  let run := keepTemp_run s (x0 :: hot) in
  let sn := List.last run s in
  let r := PID.reqPower (PID.resetPID (pid s) (-1))
                        (s16 (temp_set s)) (s16 cold) in
  Forall (fun s' => actual_power s' = 0 /\ chill s' = true) run
  /\ chill (keepTemp sn cold) = false
  /\ pid (keepTemp sn cold) = fst r
  /\ actual_power (keepTemp sn cold) = u8 (constrain (snd r) 0 period).
Proof.
  intros Hon Hch HS Hx0 Hhot Hcold run sn r.
  destruct (keepTemp_trip s x0 Hon Hch HS Hx0) as (K & _ & Kp).
  destruct (chilling_run (temp_set s) hot (keepTemp s x0)) as (F & L & Lp);
    try assumption; try lia.
  assert (Esn : sn = List.last (keepTemp_run (keepTemp s x0) hot) (keepTemp s x0)).
  { unfold sn, run. cbn [keepTemp_run]. apply last_cons_default. }
  split.
  - unfold run. cbn [keepTemp_run]. constructor.
    + destruct K as (_ & C & A & _). auto.
    + eapply Forall_impl; [exact F|].
      intros a (_ & C & A & _). auto.
  - rewrite <- Esn in L, Lp.
    destruct L as (Lon & Lch & _ & Lts).
    destruct (keepTemp_release sn cold) as (C & P & A);
      try assumption; try lia.
    unfold r. rewrite <- Kp, <- Lp, <- Lts. auto.
Qed.

Lemma keepTemp_thermal_cutoff_witness :
  let run := keepTemp_run regulating_600 [621; 700; 650; 592] in
  let sn := List.last run regulating_600 in
  let r := PID.reqPower (PID.resetPID (pid regulating_600) (-1))
                        (s16 600) (s16 591) in
  Forall (fun s' => actual_power s' = 0 /\ chill s' = true) run
  /\ chill (keepTemp sn 591) = false
  /\ pid (keepTemp sn 591) = fst r
  /\ actual_power (keepTemp sn 591) = u8 (constrain (snd r) 0 period).
Proof.
  apply (keepTemp_thermal_cutoff regulating_600 621 [700; 650; 592] 591);
    try reflexivity; try (cbn; lia).
  repeat constructor; cbn; lia.
Defined.

End ThermalCutoff.


(** ** HOTGUN_CFG: the calibration references *)
Section CalibrationReferences.
Import Mach HOTGUN_CFG.

Lemma setDefaults_t_tip (e : EEPROM.t) (st : t) :
  t_tip (snd (setDefaults e st false)) = t_tip st.
Proof. reflexivity. Qed.

(** What the references hold after [saveCalibrationData]: the middle one
    is not written. *)
Lemma saveCalibrationData_references (st : t) (a b c x y z : Z) :
  t_tip st = [a; b; c] ->
  t_tip (fst (saveCalibrationData st [x; y; z]))
  = [x; b; if z >? max_temp then max_temp else z].
Proof.
  intros H. unfold saveCalibrationData. cbn -[Z.land Z.lor Z.shiftl u32].
  rewrite H. destruct (z >? max_temp); reflexivity.
Qed.

(** C7 at a concrete input: the object is initialised from an erased
    EEPROM, so the references are the defaults 587, 751, 850; then
    [saveCalibrationData] is given 500, 600, 700.  The packed word holds
    the three values, 10 bits each, but [getCalibrationData] gives 500,
    751, 700: the middle reference is stale. *)
Theorem saveCalibrationData_mid_reference_stale :
  exists st : t,
    init (erased 1024 EEPROM.Aliased) unloaded_cfg = Some st
    /\ getCalibrationData st [0; 0; 0] = [587; 751; 850]
    /\ CONFIG.calibration
         (CONFIG.Config (base (fst (saveCalibrationData st [500; 600; 700]))))
       = 500 + 600 * 2 ^ 10 + 700 * 2 ^ 20
    /\ getCalibrationData (fst (saveCalibrationData st [500; 600; 700]))
                          [0; 0; 0]
       = [500; 751; 700].
Proof.
  eexists. split; [vm_compute; reflexivity|].
  vm_compute. auto.
Qed.








End CalibrationReferences.

(** ** HISTORY: mean and dispersion *)
Section HistoryStatistics.
Import Mach HISTORY.

Lemma fold_seq_at {A : Type} (f : A -> Z -> A) (q : list Z) : forall (n : nat) (a : A),
  (n <= length q)%nat ->
  fold_left (fun s i => f s (at_ q i)) (seq 0 n) a = fold_left f (take n q) a.
Proof.
  induction n as [|n IH]; intros a Hn; [reflexivity|].
  destruct (lookup_lt_is_Some_2 q n) as [x Hx]; [lia|].
  rewrite seq_S, fold_left_app, (take_S_r q n x Hx), fold_left_app.
  cbn [fold_left Nat.add]. rewrite IH by lia.
  unfold at_. rewrite Hx. reflexivity.
Qed.

(** The cells filled by a run of [put] on a buffer that is not full. *)
Lemma put_all_take (l : list Z) : forall (h : t) (done : list Z),
  length (queue h) = 16%nat ->
  len h = Z.of_nat (length done) ->
  take (length done) (queue h) = done ->
  (length done + length l <= 16)%nat ->
  Forall (fun x => 0 <= x < 65536) l ->
  length (queue (put_all h l)) = 16%nat
  /\ len (put_all h l) = Z.of_nat (length (done ++ l))
  /\ take (length (done ++ l)) (queue (put_all h l)) = done ++ l.
Proof.
  induction l as [|x xs IH]; intros h done Hq Hlen Htake Hroom Hl.
  - cbn [put_all fold_left]. rewrite app_nil_r. auto.
  - inversion Hl as [|? ? Hx Hxs]; subst. cbn [length] in Hroom.
    assert (Hput : put h x
                   = mk (<[length done := x]> (queue h))
                        (Z.of_nat (length done) + 1) (index h)).
    { unfold put, H_LENGTH. rewrite Hlen. ztest.
      rewrite Nat2Z.id, (u16_small x), u8_small by lia. reflexivity. }
    destruct (IH (put h x) (done ++ [x])) as (Q & L & T);
      try assumption; rewrite ?Hput; cbn [queue len index].
    + rewrite length_insert. exact Hq.
    + rewrite length_app. cbn [length]. lia.
    + rewrite length_app. cbn [length].
      replace (length done + 1)%nat with (S (length done)) by lia.
      rewrite (take_S_r _ (length done) x).
      * rewrite take_insert_ge by lia. rewrite Htake. reflexivity.
      * apply list_lookup_insert_eq. lia.
    + rewrite length_app. cbn [length]. lia.
    + change (put_all h (x :: xs)) with (put_all (put h x) xs).
      rewrite <- app_assoc in L, T. cbn [app] in L, T. auto.
Qed.

Lemma put_all_empty (q0 : list Z) (idx : Z) (l : list Z) :
  length q0 = 16%nat -> (length l <= 16)%nat ->
  Forall (fun x => 0 <= x < 65536) l ->
  len (put_all (mk q0 0 idx) l) = Z.of_nat (length l)
  /\ take (length l) (queue (put_all (mk q0 0 idx) l)) = l
  /\ (length l <= length (queue (put_all (mk q0 0 idx) l)))%nat.
Proof.
  intros Hq Hl Hr.
  destruct (put_all_take l (mk q0 0 idx) []) as (Q & L & T);
    try assumption; try reflexivity.
  cbn [app] in L, T. rewrite Q. auto.
Qed.

Lemma total_bounds (l : list Z) (b : Z) :
  Forall (fun x => 0 <= x < b) l ->
  0 <= total l <= (b - 1) * Z.of_nat (length l).
Proof.
  induction 1 as [|x xs Hx _ IH]; cbn [total fold_right length]; [lia|].
  fold (total xs). nia.
Qed.

Lemma sqdev_bounds (l : list Z) (m b : Z) :
  0 <= m < b -> Forall (fun x => 0 <= x < b) l ->
  0 <= sqdev l m <= (b - 1) * (b - 1) * Z.of_nat (length l).
Proof.
  intros Hm. induction 1 as [|x xs Hx _ IH]; cbn [sqdev fold_right length]; [lia|].
  fold (sqdev xs m).
  assert (0 <= (x - m) * (x - m)) by apply Z.square_nonneg.
  assert (0 <= (b - 1 - (x - m)) * (b - 1 + (x - m)))
    by (apply Z.mul_nonneg_nonneg; lia).
  assert ((b - 1 - (x - m)) * (b - 1 + (x - m))
          = (b - 1) * (b - 1) - (x - m) * (x - m)) by ring.
  rewrite Nat2Z.inj_succ. lia.
Qed.

Lemma sqdev_nonneg (l : list Z) (m : Z) : 0 <= sqdev l m.
Proof.
  induction l as [|x xs IH]; cbn [sqdev fold_right]; [lia|].
  fold (sqdev xs m). pose proof (Z.square_nonneg (x - m)). lia.
Qed.

(** The 32-bit running sum is the exact sum while it fits. *)
Lemma sum_u32_exact (l : list Z) : forall a : Z,
  Forall (fun x => 0 <= x < 65536) l -> 0 <= a ->
  a + 65535 * Z.of_nat (length l) < 4294967296 ->
  fold_left (fun s x => u32 (s + x)) l a = a + total l.
Proof.
  induction l as [|x xs IH]; intros a Hl Ha Hfit;
    cbn [fold_left total fold_right length] in *; [lia|].
  inversion Hl as [|? ? Hx Hxs]; subst. fold (total xs).
  rewrite u32_small by lia. rewrite IH by (assumption || lia). lia.
Qed.

(** A signed 32-bit value added to the unsigned 32-bit sum counts
    modulo 2^32. *)
Lemma u32_add_s32 (a y : Z) : u32 (a + s32 y) = u32 (a + y).
Proof.
  unfold u32, s32.
  rewrite (Z.mod_eq (y + 2147483648) 4294967296) by lia.
  replace (a + (y + 2147483648
                - 4294967296 * ((y + 2147483648) / 4294967296) - 2147483648))
    with (a + y + (- ((y + 2147483648) / 4294967296)) * 4294967296) by ring.
  apply Z_mod_plus_full.
Qed.

(** The loop of [dispersion] adds up the squared deviations modulo 2^32. *)
Lemma squares_u32 (m : Z) (l : list Z) : forall a : Z,
  0 <= m < 65536 ->
  Forall (fun x => 0 <= x < 65536) l ->
  u32 (fold_left (fun s x => u32 (s + s32 (s32 (x - m) * s32 (x - m)))) l a)
  = u32 (a + sqdev l m).
Proof.
  induction l as [|x xs IH]; intros a Hm Hl;
    cbn [fold_left sqdev fold_right]; [f_equal; lia|].
  inversion Hl as [|? ? Hx Hxs]; subst. fold (sqdev xs m).
  rewrite IH by assumption.
  rewrite (s32_small (x - m)) by lia. rewrite u32_add_s32.
  unfold u32. rewrite Zplus_mod_idemp_l. f_equal. lia.
Qed.

(** Samples below 16384, ADC readings among them, never make the sum
    wrap. *)
Lemma small_samples_fit (l : list Z) (m : Z) :
  (length l <= 16)%nat -> 0 <= m < 16384 ->
  Forall (fun x => 0 <= x < 16384) l ->
  sqdev l m + 2 * Z.of_nat (length l) < 4294967296.
Proof.
  intros H16 Hm Hl. pose proof (sqdev_bounds l m 16384 Hm Hl). lia.
Qed.

Lemma sum_squares_take (h : t) (avg : Z) :
  (Z.to_nat (len h) <= length (queue h))%nat ->
  sum_squares h avg
  = fold_left (fun s x => u32 (s + s32 (s32 (x - avg) * s32 (x - avg))))
              (take (Z.to_nat (len h)) (queue h)) 0.
Proof.
  intros H. unfold sum_squares.
  apply (fold_seq_at (fun s x => u32 (s + s32 (s32 (x - avg) * s32 (x - avg))))).
  exact H.
Qed.

Lemma sum_queue_take (h : t) :
  (Z.to_nat (len h) <= length (queue h))%nat ->
  sum_queue h
  = fold_left (fun s x => u32 (s + x)) (take (Z.to_nat (len h)) (queue h)) 0.
Proof.
  intros H. unfold sum_queue.
  apply (fold_seq_at (fun s x => u32 (s + x))). exact H.
Qed.

(** [average] on a buffer whose filled cells are [l], for any 16-bit
    samples. *)
Lemma average_filled (h : t) (l : list Z) :
  len h = Z.of_nat (length l) ->
  take (length l) (queue h) = l ->
  (length l <= length (queue h))%nat -> (length l <= 16)%nat ->
  Forall (fun x => 0 <= x < 65536) l ->
  average h = match l with
              | [] => 0
              | [x] => x
              | _ => (total l + Z.of_nat (length l) / 2) / Z.of_nat (length l)
              end.
Proof.
  intros Hlen Htake Hq H16 Hr. unfold average.
  destruct l as [|x [|y ys]].
  - rewrite Hlen. reflexivity.
  - rewrite Hlen. cbn [length Z.of_nat Z.eqb Pos.eqb].
    destruct (queue h) as [|c cs]; [discriminate Htake|].
    cbn in Htake. injection Htake as ->. reflexivity.
  - set (l := x :: y :: ys) in *.
    assert (Hn : 2 <= Z.of_nat (length l)) by (unfold l; cbn [length]; lia).
    rewrite sum_queue_take by (rewrite Hlen, Nat2Z.id; exact Hq).
    rewrite Hlen, Nat2Z.id, Htake. ztest.
    pose proof (total_bounds l 65536 Hr) as Ht.
    rewrite sum_u32_exact by (assumption || lia).
    rewrite Z.shiftr_div_pow2 by lia. change (2 ^ 1) with 2.
    rewrite Z.add_0_l.
    assert (0 <= Z.of_nat (length l) / 2 < Z.of_nat (length l))
      by (split; [apply Z.div_pos; lia | apply Z.div_lt_upper_bound; lia]).
    rewrite u32_small by lia.
    rewrite Z.quot_div_nonneg by lia.
    apply u16_small. split; [apply Z.div_pos; lia|].
    apply Z.div_lt_upper_bound; lia.
Qed.

Lemma average_filled_range (h : t) (l : list Z) :
  len h = Z.of_nat (length l) ->
  take (length l) (queue h) = l ->
  (length l <= length (queue h))%nat -> (length l <= 16)%nat ->
  Forall (fun x => 0 <= x < 65536) l ->
  0 <= average h < 65536.
Proof.
  intros Hlen Htake Hq H16 Hr.
  rewrite (average_filled h l Hlen Htake Hq H16 Hr).
  pose proof (total_bounds l 65536 Hr) as Ht.
  destruct l as [|x [|y ys]]; [lia| |].
  - inversion Hr; subst. lia.
  - set (n := Z.of_nat (length (x :: y :: ys))) in *.
    assert (2 <= n) by (unfold n; cbn [length]; lia).
    assert (n / 2 < n) by (apply Z.div_lt_upper_bound; lia).
    assert (0 <= n / 2) by (apply Z.div_pos; lia).
    split; [apply Z.div_pos; lia|].
    apply Z.div_lt_upper_bound; lia.
Qed.

(** The integer mean is the exact mean rounded to nearest, halves up. *)
Lemma rounded_mean (tot n : Z) :
  0 < n ->
  2 * tot - n < 2 * (n * ((tot + n / 2) / n)) <= 2 * tot + n.
Proof.
  intros Hn.
  pose proof (Z.div_mod (tot + n / 2) n ltac:(lia)) as E.
  pose proof (Z.mod_pos_bound (tot + n / 2) n Hn) as B.
  pose proof (Z.div_mod n 2 ltac:(lia)) as E2.
  pose proof (Z.mod_pos_bound n 2 ltac:(lia)) as B2.
  lia.
Qed.

(** The operand [sum] of the division in [dispersion], on a buffer whose
    filled cells are [l]. *)
Lemma dispersion_sum_filled (h : t) (l : list Z) :
  len h = Z.of_nat (length l) ->
  take (length l) (queue h) = l ->
  (length l <= length (queue h))%nat -> (length l <= 16)%nat ->
  Forall (fun x => 0 <= x < 65536) l ->
  dispersion_sum h
  = (sqdev l (average h) + 2 * Z.of_nat (length l)) mod 4294967296.
Proof.
  intros Hlen Htake Hle H16 Hr. unfold dispersion_sum.
  pose proof (average_filled_range h l Hlen Htake Hle H16 Hr) as Hm.
  rewrite sum_squares_take by (rewrite Hlen, Nat2Z.id; exact Hle).
  rewrite Hlen, Nat2Z.id, Htake.
  rewrite Z.shiftl_mul_pow2 by lia. change (2 ^ 1) with 2.
  pose proof (squares_u32 (average h) l 0 Hm Hr) as E.
  unfold u32 in *. rewrite <- Zplus_mod_idemp_l, E, Zplus_mod_idemp_l.
  f_equal. lia.
Qed.

(** The sum does wrap, with no signed overflow on the way: for eight
    samples of 0 and eight of 65535 the mean is 32768, every squared
    deviation is below 2^31, and their sum is about 2^34. *)
Lemma dispersion_sum_wraps :
  let l := [0; 65535; 0; 65535; 0; 65535; 0; 65535;
            0; 65535; 0; 65535; 0; 65535; 0; 65535] in
  let h := put_all empty_history l in
  average h = 32768
  /\ sqdev l (average h) + 2 * 16 = 17179344936
  /\ dispersion_sum h = 4294443048.
Proof. cbv zeta. repeat split; vm_compute; reflexivity. Qed.

(** The result of [dispersion] is a single-precision number, not the
    exact quotient: for the samples 1, 2, 2 the operands are 7 and 3 and
    the result is 9786709 * 2^-22 = 2.33333325..., the [float] nearest to
    7/3. *)
Lemma dispersion_is_single_precision :
  dispersion (put_all empty_history [1; 2; 2])
  = SpecFloat.S754_finite false 9786709 (-22)
  /\ exists v : Q,
       float_value (dispersion (put_all empty_history [1; 2; 2])) = Some v
       /\ (v < 7 # 3)%Q /\ (7 # 3 < v + (1 # 10000000))%Q.
Proof.
  split; [vm_compute; reflexivity|].
  eexists. split; [vm_compute; reflexivity|].
  split; vm_compute; reflexivity.
Qed.

(** C9 as stated fails for [dispersion]: for the three samples 5, 5, 5
    the population variance is 0, and [dispersion] is the [float] 2
    (the quotient of 6 and 3). *)
Lemma dispersion_constant_samples_counterexample :
  pop_variance [5; 5; 5] == 0
  /\ dispersion (put_all empty_history [5; 5; 5]) = Float32.of_Z 2
  /\ exists v : Q,
       float_value (dispersion (put_all empty_history [5; 5; 5])) = Some v
       /\ v == 2 /\ ~ v == pop_variance [5; 5; 5].
Proof.
  split; [reflexivity|]. split; [vm_compute; reflexivity|].
  eexists. split; [vm_compute; reflexivity|].
  split; [reflexivity|].
  intros H. vm_compute in H. discriminate H.
Qed.

(** C9, amended: for at most 16 values, each a 16-bit sample, put into an
    empty buffer, [average] is 0 when nothing is stored, the element
    itself when one is stored, and otherwise (sum + n/2) / n, the exact
    mean rounded to the nearest integer.  [dispersion] is the [float]
    1000 when fewer than 3 values are stored, and otherwise the
    single-precision quotient of the integers S and n, each converted to
    [float], where S is (sum of squared deviations from [average] + 2n)
    modulo 2^32; whenever that sum is below 2^32 it is taken as it is, and
    the result is the variance about the rounded mean plus a bias of 2, in
    single precision, not the population variance itself. *)
Theorem history_mean_and_dispersion (q0 : list Z) (idx : Z) (l : list Z) :
  length q0 = 16%nat -> (length l <= 16)%nat ->
  Forall (fun x => 0 <= x < 65536) l ->
  let h := put_all (mk q0 0 idx) l in
  let n := Z.of_nat (length l) in
  average h = match l with
              | [] => 0
              | [x] => x
              | _ => (total l + n / 2) / n
              end
  /\ (l = [] \/ 2 * total l - n < 2 * (n * average h) <= 2 * total l + n)
  /\ dispersion h
     = (if (length l <? 3)%nat then Float32.of_Z 1000
        else Float32.div
               (Float32.of_Z ((sqdev l (average h) + 2 * n) mod 4294967296))
               (Float32.of_Z n))
  /\ ((3 <= length l)%nat ->
      sqdev l (average h) + 2 * n < 4294967296 ->
      dispersion h
      = Float32.div (Float32.of_Z (sqdev l (average h) + 2 * n))
                    (Float32.of_Z n)).
Proof.
  intros Hq H16 Hr h n.
  destruct (put_all_empty q0 idx l Hq H16 Hr) as (Hlen & Htake & Hle).
  fold h in Hlen, Htake, Hle.
  pose proof (average_filled h l Hlen Htake Hle H16 Hr) as Havg.
  assert (Hdisp : dispersion h
                  = if (length l <? 3)%nat then Float32.of_Z 1000
                    else Float32.div
                           (Float32.of_Z
                              ((sqdev l (average h) + 2 * n) mod 4294967296))
                           (Float32.of_Z n)).
  { unfold dispersion. rewrite Hlen. fold n.
    destruct (Nat.ltb_spec (length l) 3) as [Hlt|Hge]; ztest; [reflexivity|].
    rewrite (dispersion_sum_filled h l Hlen Htake Hle H16 Hr). reflexivity. }
  split; [exact Havg|]. split; [|split; [exact Hdisp|]].
  - destruct l as [|x [|y ys]]; [left; reflexivity| |]; right.
    + rewrite Havg. unfold n. cbn [total fold_right length]. lia.
    + rewrite Havg. apply rounded_mean. unfold n. cbn [length]. lia.
  - intros Hge Hfit. rewrite Hdisp.
    destruct (Nat.ltb_spec (length l) 3) as [Hlt|_]; [lia|].
    pose proof (sqdev_nonneg l (average h)) as Hnn.
    rewrite Z.mod_small by lia. reflexivity.
Qed.

Lemma history_mean_and_dispersion_witness :
  let l := [1; 2; 2; 60000] in
  let h := put_all empty_history l in
  average h = (total l + 4 / 2) / 4
  /\ (l = [] \/ 2 * total l - 4 < 2 * (4 * average h) <= 2 * total l + 4)
  /\ dispersion h
     = Float32.div (Float32.of_Z ((sqdev l (average h) + 2 * 4) mod 4294967296))
                   (Float32.of_Z 4)
  /\ dispersion h
     = Float32.div (Float32.of_Z (sqdev l (average h) + 2 * 4)) (Float32.of_Z 4).
Proof.
  cbv zeta.
  destruct (history_mean_and_dispersion (repeat 0 16) 0 [1; 2; 2; 60000])
    as (Havg & Hmean & Hmod & Hexact);
    [reflexivity | cbn; lia | repeat constructor; lia |].
  split; [exact Havg|]. split; [exact Hmean|]. split; [exact Hmod|].
  apply Hexact.
  - cbn. lia.
  - vm_compute. reflexivity.
Defined.

End HistoryStatistics.

(** ** CONFIG: the record checksum *)
Section RecordChecksum.
Import Mach CONFIG.

Lemma summ_step_mod (s b : Z) : summ_step (s mod 256) b = (4 * s + b) mod 256.
Proof.
  unfold summ_step, u8. rewrite Z.shiftl_mul_pow2 by lia.
  change (2 ^ 2) with 4. rewrite Zplus_mod_idemp_l.
  rewrite (Z.mul_comm 4 s). rewrite <- (Zplus_mod_idemp_l (s * 4)).
  rewrite <- (Zmult_mod_idemp_l s 4). rewrite Zplus_mod_idemp_l.
  reflexivity.
Qed.

Lemma fold_summ_lin (l : list Z) : forall a : Z,
  fold_left summ_step l (a mod 256) = lin l a mod 256.
Proof.
  induction l as [|b l IH]; intros a; cbn [fold_left lin].
  - reflexivity.
  - rewrite summ_step_mod, IH. reflexivity.
Qed.

Lemma lin_affine (l : list Z) : forall a : Z,
  lin l a = a * 4 ^ Z.of_nat (length l) + lin l 0.
Proof.
  induction l as [|b l IH]; intros a; cbn [lin fold_left length].
  - change (4 ^ Z.of_nat 0) with 1. lia.
  - fold (lin l (4 * a + b)). fold (lin l (4 * 0 + b)).
    rewrite (IH (4 * a + b)), (IH (4 * 0 + b)).
    rewrite Nat2Z.inj_succ, Z.pow_succ_r by lia. ring.
Qed.

(** Changing one byte by [d] moves the unwrapped sum by [d] times the
    weight of the byte's position. *)
Lemma lin_one_byte (l1 l2 : list Z) (b d : Z) :
  lin (l1 ++ (b + d) :: l2) 0
  = lin (l1 ++ b :: l2) 0 + d * 4 ^ Z.of_nat (length l2).
Proof.
  unfold lin. rewrite !fold_left_app. cbn [fold_left].
  fold (lin l1 0). fold (lin l2 (4 * lin l1 0 + (b + d))).
  fold (lin l2 (4 * lin l1 0 + b)).
  rewrite (lin_affine l2 (4 * lin l1 0 + (b + d))).
  rewrite (lin_affine l2 (4 * lin l1 0 + b)). ring.
Qed.

Lemma checksum_lin (l : list Z) : checksum l = (lin l 0 + 1) mod 256.
Proof.
  unfold checksum, u8. change 0 with (0 mod 256) at 1.
  rewrite fold_summ_lin. apply Zplus_mod_idemp_l.
Qed.

Lemma checksum_shift (X c : Z) :
  (X + c + 1) mod 256 = (X + 1) mod 256 <-> c mod 256 = 0.
Proof.
  rewrite <- (Z.add_assoc X c 1), (Z.add_comm c 1), Z.add_assoc.
  split; intros H.
  - pose proof (Z.div_mod (X + 1 + c) 256 ltac:(lia)).
    pose proof (Z.div_mod (X + 1) 256 ltac:(lia)).
    pose proof (Z.div_mod c 256 ltac:(lia)).
    pose proof (Z.mod_pos_bound c 256 ltac:(lia)). lia.
  - rewrite <- Zplus_mod_idemp_r, H, Z.add_0_r. reflexivity.
Qed.

(** A bit flip adds or subtracts the weight of the bit. *)
Lemma flip_is_shift (b k : Z) :
  0 <= b < 256 -> 0 <= k < 8 ->
  Z.lxor b (2 ^ k) = b + 2 ^ k \/ Z.lxor b (2 ^ k) = b - 2 ^ k.
Proof.
  intros Hb Hk.
  assert (Hall : forallb (fun b => forallb (fun k =>
                    (Z.lxor b (2 ^ k) =? b + 2 ^ k)
                    || (Z.lxor b (2 ^ k) =? b - 2 ^ k))
                  (seqZ 0 8)) (seqZ 0 256) = true) by (vm_compute; reflexivity).
  rewrite forallb_forall in Hall.
  specialize (Hall b). rewrite <- list_elem_of_In, elem_of_seqZ in Hall.
  specialize (Hall ltac:(lia)).
  rewrite forallb_forall in Hall.
  specialize (Hall k). rewrite <- list_elem_of_In, elem_of_seqZ in Hall.
  specialize (Hall ltac:(lia)).
  apply orb_true_iff in Hall. destruct Hall as [H|H];
    apply Z.eqb_eq in H; auto.
Qed.

(** The weight of a flipped bit vanishes modulo 256 unless the bit lands in
    the low 8 bits of the sum. *)
Lemma weight_mod (k : Z) (m : nat) :
  0 <= k < 8 ->
  ((2 ^ k * 4 ^ Z.of_nat m) mod 256 = 0 <-> 8 <= k + 2 * Z.of_nat m).
Proof.
  intros Hk.
  assert (Hpow : 2 ^ k * 4 ^ Z.of_nat m = 2 ^ (k + 2 * Z.of_nat m)).
  { rewrite Z.pow_add_r, Z.pow_mul_r by lia. reflexivity. }
  rewrite Hpow. set (n := k + 2 * Z.of_nat m). assert (0 <= n) by lia.
  split; intros H8.
  - destruct (Z.lt_ge_cases n 8) as [Hlt|]; [|assumption].
    exfalso. rewrite Z.mod_small in H8.
    + pose proof (Z.pow_pos_nonneg 2 n ltac:(lia) ltac:(lia)). lia.
    + split; [apply Z.pow_nonneg; lia|].
      change 256 with (2 ^ 8). apply Z.pow_lt_mono_r; lia.
  - replace n with (8 + (n - 8)) by lia.
    rewrite Z.pow_add_r by lia. change (2 ^ 8) with 256.
    rewrite Z.mul_comm. apply Z_mod_mult.
Qed.

Lemma mod_opp_zero (y : Z) : (- y) mod 256 = 0 <-> y mod 256 = 0.
Proof.
  split; intros H.
  - rewrite <- (Z.opp_involutive y). apply Z.mod_opp_l_z; [lia | exact H].
  - apply Z.mod_opp_l_z; [lia | exact H].
Qed.

(** C5 as stated fails: after one [save], flipping bit 0 of the first ID
    byte leaves a record that still passes validation, read back with
    the ID 0 instead of 1. *)
Lemma id_byte_flip_undetected_counterexample :
  readRecord saved_once 16 0 = Some (1, sample_cfg)
  /\ readRecord (flip_cell 0 0 saved_once) 16 0 = Some (0, sample_cfg).
Proof. split; vm_compute; reflexivity. Qed.

(** C5, amended: over the 12 stored bytes (4 ID bytes, then the 8 payload
    bytes) the checksum c = c*4 + byte in 8 bits, plus 1, changes under a
    flip of bit k of byte i exactly when k + 2*(11 - i) < 8: any bit of
    byte 11, bits 0-5 of byte 10, bits 0-3 of byte 9 and bits 0-1 of
    byte 8; a flip anywhere in the ID bytes or in the first four payload
    bytes leaves the checksum as it was.  A slot whose 16 cells read zero
    never passes validation. *)
Theorem checksum_single_bit_flip (bytes : list Z) (i : nat) (k : Z) :
  length bytes = 12%nat -> Forall (fun b => 0 <= b < 256) bytes ->
  (i < 12)%nat -> 0 <= k < 8 ->
  (checksum (flip_at i k bytes) <> checksum bytes
   <-> k + 2 * (11 - Z.of_nat i) < 8)
  /\ (forall (e : EEPROM.t) (addr : Z),
        (forall j : nat, (j < 16)%nat ->
                         EEPROM.read e (u16 (addr + Z.of_nat j)) = 0) ->
        readRecord e 16 addr = None).
Proof.
  intros Hlen Hbytes Hi Hk. split.
  - destruct (lookup_lt_is_Some_2 bytes i) as [b Hb]; [lia|].
    assert (Hrange : 0 <= b < 256).
    { rewrite Forall_forall in Hbytes. apply Hbytes.
      eapply list_elem_of_lookup_2. exact Hb. }
    set (l1 := take i bytes). set (l2 := drop (S i) bytes).
    assert (Hl2 : Z.of_nat (length l2) = 11 - Z.of_nat i)
      by (unfold l2; rewrite length_drop; lia).
    assert (Eorig : bytes = l1 ++ b :: l2)
      by (symmetry; apply take_drop_middle; exact Hb).
    assert (Eflip : flip_at i k bytes = l1 ++ Z.lxor b (2 ^ k) :: l2).
    { unfold flip_at, at_. rewrite Hb. cbn [default].
      apply insert_take_drop. lia. }
    rewrite Eflip, !checksum_lin.
    replace (lin bytes 0) with (lin (l1 ++ b :: l2) 0) by (rewrite <- Eorig; reflexivity).
    assert (Hshift : forall d,
               Z.lxor b (2 ^ k) = b + d ->
               (lin (l1 ++ Z.lxor b (2 ^ k) :: l2) 0 + 1) mod 256
               = (lin (l1 ++ b :: l2) 0 + 1) mod 256
               <-> (d * 4 ^ Z.of_nat (length l2)) mod 256 = 0).
    { intros d Hd. rewrite Hd, lin_one_byte. apply checksum_shift. }
    pose proof (weight_mod k (length l2) Hk) as W.
    destruct (flip_is_shift b k Hrange Hk) as [Hp|Hm].
    + rewrite (Hshift _ Hp), W. lia.
    + assert (Hm' : Z.lxor b (2 ^ k) = b + - 2 ^ k) by lia.
      rewrite (Hshift _ Hm'), Z.mul_opp_l, mod_opp_zero, W. lia.
  - intros e addr Hzero. unfold readRecord.
    rewrite (map_ext_in _ (fun _ => 0)).
    + vm_compute. reflexivity.
    + intros j Hj. apply Hzero. apply in_seq in Hj.
      change (Z.to_nat 16) with 16%nat in Hj. lia.
Qed.

Lemma checksum_single_bit_flip_witness :
  (checksum (flip_at 8 1 [1; 0; 0; 0; 75; 240; 37; 53; 88; 2; 64; 0])
   <> checksum [1; 0; 0; 0; 75; 240; 37; 53; 88; 2; 64; 0]
   <-> 1 + 2 * (11 - Z.of_nat 8) < 8)
  /\ (forall (e : EEPROM.t) (addr : Z),
        (forall j : nat, (j < 16)%nat ->
                         EEPROM.read e (u16 (addr + Z.of_nat j)) = 0) ->
        readRecord e 16 addr = None).
Proof.
  apply (checksum_single_bit_flip
           [1; 0; 0; 0; 75; 240; 37; 53; 88; 2; 64; 0] 8 1);
    [reflexivity | repeat constructor; lia | lia | lia].
Defined.

End RecordChecksum.

(** ** CONFIG: the scan of [init] and the round robin of [save] *)
Section RecordLog.
Import Mach CONFIG.

(** The loop of [init] is a fold over the records decoded before the
    first slot that does not decode. *)
Lemma scan_valid_prefix (e : EEPROM.t) (eLength rs : Z) :
  0 < rs -> eLength + rs <= 65536 ->
  forall (n fuel : nat) (addr : Z) (a : scan_acc),
    0 <= addr -> (n < fuel)%nat ->
    eLength <= addr + Z.of_nat n * rs ->
    (n <> O -> addr + (Z.of_nat n - 1) * rs < eLength) ->
    scan fuel e eLength rs addr a
    = Some (hits a (valid_prefix e rs (slots_from n addr rs))).
Proof.
  intros Hrs Hlen. induction n as [|k IH]; intros fuel addr a Haddr Hfuel H1 H2.
  - destruct fuel as [|f]; [lia|]. cbn [scan slots_from valid_prefix hits fold_left].
    ztest. reflexivity.
  - destruct fuel as [|f]; [lia|].
    assert (addr + Z.of_nat k * rs < eLength) by (specialize (H2 ltac:(lia)); lia).
    assert (addr < eLength) by nia.
    cbn [scan slots_from valid_prefix]. ztest.
    destruct (readRecord e rs addr) as [[recID c]|]; [|reflexivity].
    rewrite (u16_small (addr + rs)) by lia.
    rewrite (IH f (addr + rs)); try lia.
    reflexivity.
Qed.

Lemma slot_count (eLength rs : Z) :
  0 < rs -> 0 <= eLength ->
  let q := (eLength + rs - 1) / rs in
  0 <= q <= eLength /\ eLength <= q * rs /\ (q - 1) * rs < eLength.
Proof.
  intros Hrs Hlen q.
  pose proof (Z.div_mod (eLength + rs - 1) rs ltac:(lia)) as E.
  pose proof (Z.mod_pos_bound (eLength + rs - 1) rs Hrs) as B.
  fold q in E.
  assert (0 <= q) by (apply Z.div_pos; lia).
  repeat split; try nia.
Qed.

Lemma scan_all_valid_prefix (e : EEPROM.t) (st : t) :
  0 < record_size st ->
  Z.of_nat (length (EEPROM.cells e)) + record_size st <= 65536 ->
  scan_all e st
  = Some (hits (scan_start (Config st))
               (valid_prefix e (record_size st)
                  (slot_addrs (EEPROM.length e) (record_size st)))).
Proof.
  intros Hrs Hlen. unfold scan_all, slot_addrs.
  assert (HL : EEPROM.length e = Z.of_nat (length (EEPROM.cells e)))
    by (unfold EEPROM.length; apply u16_small; lia).
  destruct (slot_count (EEPROM.length e) (record_size st)) as (Q1 & Q2 & Q3);
    try lia.
  apply scan_valid_prefix; try lia.
Qed.

Lemma hits_cons (a : scan_acc) (x : Z * Z * cfg) (p : list (Z * Z * cfg)) :
  hits a (x :: p) = hits (scan_hit a (entry_addr x) (entry_id x) (snd x)) p.
Proof. reflexivity. Qed.

Lemma hits_records (p : list (Z * Z * cfg)) : forall a : scan_acc,
  records a = u8 (records a) ->
  records (hits a p) = u8 (records a + Z.of_nat (length p)).
Proof.
  induction p as [|x p IH]; intros a Ha.
  - cbn [hits fold_left length Z.of_nat]. rewrite Z.add_0_r. exact Ha.
  - rewrite hits_cons, IH.
    + cbn [scan_hit records length]. unfold u8.
      rewrite Zplus_mod_idemp_l. f_equal. lia.
    + cbn [scan_hit records]. unfold u8. rewrite Z.mod_mod by lia. reflexivity.
Qed.

Lemma fold_max_floor (l : list Z) (m x : Z) :
  fold_right Z.max (Z.max m x) l = Z.max x (fold_right Z.max m l).
Proof. induction l as [|y l IH]; cbn [fold_right]; [lia | rewrite IH; lia]. Qed.

Lemma fold_min_ceiling (l : list Z) (m x : Z) :
  fold_right Z.min (Z.min m x) l = Z.min x (fold_right Z.min m l).
Proof. induction l as [|y l IH]; cbn [fold_right]; [lia | rewrite IH; lia]. Qed.

Lemma hits_max (p : list (Z * Z * cfg)) : forall a : scan_acc,
  maxRecID (hits a p) = fold_right Z.max (maxRecID a) (List.map entry_id p).
Proof.
  induction p as [|x p IH]; intros a; [reflexivity|].
  rewrite hits_cons, IH. cbn [scan_hit maxRecID List.map fold_right].
  rewrite <- fold_max_floor. f_equal.
  destruct (Z.ltb_spec (maxRecID a) (entry_id x)); lia.
Qed.

Lemma hits_min (p : list (Z * Z * cfg)) : forall a : scan_acc,
  minRecID (hits a p) = fold_right Z.min (minRecID a) (List.map entry_id p).
Proof.
  induction p as [|x p IH]; intros a; [reflexivity|].
  rewrite hits_cons, IH. cbn [scan_hit minRecID List.map fold_right].
  rewrite <- fold_min_ceiling. f_equal.
  rewrite Z.gtb_ltb. destruct (Z.ltb_spec (entry_id x) (minRecID a)); lia.
Qed.

(** The address kept with the maximum is that of a scanned record. *)
Lemma hits_max_addr (p : list (Z * Z * cfg)) : forall a : scan_acc,
  (maxRecAddr (hits a p) = maxRecAddr a /\ maxRecID (hits a p) = maxRecID a)
  \/ exists x, In x p /\ entry_addr x = maxRecAddr (hits a p)
               /\ entry_id x = maxRecID (hits a p).
Proof.
  induction p as [|x p IH]; intros a; [left; auto|].
  rewrite hits_cons.
  destruct (IH (scan_hit a (entry_addr x) (entry_id x) (snd x)))
    as [[E1 E2]|(y & Hy & E1 & E2)].
  - rewrite E1, E2. cbn [scan_hit maxRecAddr maxRecID].
    destruct (maxRecID a <? entry_id x); [right|left; auto].
    exists x. split; [left; reflexivity | auto].
  - right. exists y. split; [right; exact Hy | auto].
Qed.

Lemma hits_min_addr (p : list (Z * Z * cfg)) : forall a : scan_acc,
  (minRecAddr (hits a p) = minRecAddr a /\ minRecID (hits a p) = minRecID a)
  \/ exists x, In x p /\ entry_addr x = minRecAddr (hits a p)
               /\ entry_id x = minRecID (hits a p).
Proof.
  induction p as [|x p IH]; intros a; [left; auto|].
  rewrite hits_cons.
  destruct (IH (scan_hit a (entry_addr x) (entry_id x) (snd x)))
    as [[E1 E2]|(y & Hy & E1 & E2)].
  - rewrite E1, E2. cbn [scan_hit minRecAddr minRecID].
    destruct (minRecID a >? entry_id x); [right|left; auto].
    exists x. split; [left; reflexivity | auto].
  - right. exists y. split; [right; exact Hy | auto].
Qed.

(** C4 as stated fails: with records 1, 2, 3 in slots 0, 1, 2 and the
    record of slot 1 damaged, slot 2 still decodes (ID 3), but the scan
    stops at slot 1: it counts one record, its maximum is ID 1 at
    address 0, and [init] sets the read address to 0 and the write
    address to 16. *)
Lemma scan_stops_at_damaged_slot_counterexample :
  readRecord damaged_middle 16 16 = None
  /\ option_map fst (readRecord damaged_middle 16 32) = Some 3
  /\ (exists a, scan_all damaged_middle (CONFIG.CONFIG blank_cfg) = Some a
                /\ records a = 1 /\ maxRecID a = 1 /\ maxRecAddr a = 0)
  /\ (exists st', init damaged_middle (CONFIG.CONFIG blank_cfg) = Some st'
                  /\ rAddr st' = 0 /\ wAddr st' = 16).
Proof.
  split; [vm_compute; reflexivity|].
  split; [vm_compute; reflexivity|].
  split; eexists; (split; [vm_compute; reflexivity|]); cbn; auto.
Qed.

(** C4, amended: [CONFIG::init] decodes the slots at addr = 0,
    record_size, 2*record_size, ... in order and stops at the first slot
    that does not decode.  The valid-slot count, the minimum and maximum
    record IDs and their addresses are those of the records before that
    slot; a valid slot after an undecodable one is not seen.  The read
    address becomes the address kept with the maximum ID. *)
Theorem init_scans_valid_prefix (e : EEPROM.t) (st : t) :
  0 < record_size st ->
  Z.of_nat (length (EEPROM.cells e)) + record_size st <= 65536 ->
  let p := valid_prefix e (record_size st)
             (slot_addrs (EEPROM.length e) (record_size st)) in
  exists (a : scan_acc) (st' : t),
    scan_all e st = Some a /\ init e st = Some st'
    /\ records a = u8 (Z.of_nat (length p))
    /\ maxRecID a = fold_right Z.max 0 (List.map entry_id p)
    /\ minRecID a = fold_right Z.min 4294967295 (List.map entry_id p)
    /\ (0 < maxRecID a ->
        exists x, In x p /\ entry_addr x = maxRecAddr a
                  /\ entry_id x = maxRecID a)
    /\ (minRecID a < 4294967295 ->
        exists x, In x p /\ entry_addr x = minRecAddr a
                  /\ entry_id x = minRecID a)
    /\ rAddr st' = (if records a =? 0 then 0 else maxRecAddr a).
Proof.
  intros Hrs Hlen p.
  pose proof (scan_all_valid_prefix e st Hrs Hlen) as Hscan. fold p in Hscan.
  set (a := hits (scan_start (Config st)) p) in *.
  assert (Hinit : exists st', init e st = Some st'
                    /\ rAddr st' = (if records a =? 0 then 0 else maxRecAddr a)).
  { unfold init. rewrite Hscan.
    destruct (records a =? 0); eexists; split; reflexivity. }
  destruct Hinit as (st' & Hst' & Hr).
  exists a, st'. split; [exact Hscan|]. split; [exact Hst'|].
  split; [unfold a; rewrite hits_records; reflexivity|].
  split; [unfold a; rewrite hits_max; reflexivity|].
  split; [unfold a; rewrite hits_min; reflexivity|].
  split; [|split; [|exact Hr]].
  - intros Hpos. destruct (hits_max_addr p (scan_start (Config st)))
      as [[_ E]|H]; [|exact H].
    fold a in E. cbn in E. lia.
  - intros Hlt. destruct (hits_min_addr p (scan_start (Config st)))
      as [[_ E]|H]; [|exact H].
    fold a in E. cbn in E. lia.
Qed.

Lemma init_scans_valid_prefix_witness :
  let e := damaged_middle in
  let st := CONFIG.CONFIG blank_cfg in
  let p := valid_prefix e (record_size st)
             (slot_addrs (EEPROM.length e) (record_size st)) in
  exists (a : scan_acc) (st' : t),
    scan_all e st = Some a /\ init e st = Some st'
    /\ records a = u8 (Z.of_nat (length p))
    /\ maxRecID a = fold_right Z.max 0 (List.map entry_id p)
    /\ minRecID a = fold_right Z.min 4294967295 (List.map entry_id p)
    /\ (0 < maxRecID a ->
        exists x, In x p /\ entry_addr x = maxRecAddr a
                  /\ entry_id x = maxRecID a)
    /\ (minRecID a < 4294967295 ->
        exists x, In x p /\ entry_addr x = minRecAddr a
                  /\ entry_id x = minRecID a)
    /\ rAddr st' = (if records a =? 0 then 0 else maxRecAddr a).
Proof.
  apply (init_scans_valid_prefix damaged_middle (CONFIG.CONFIG blank_cfg));
    [vm_compute; reflexivity | vm_compute; discriminate].
Defined.

(** C3 at a concrete input: a 1024-byte EEPROM has 64 slots.  After
    the 64th save the write address is 1024, not 0, because the test is
    [wAddr > EEPROM.length()]; the 65th record is written past the end
    (lost, or on top of slot 0 where the address aliases) and the 66th
    goes to slot 0.  After 66 saves the slots hold the IDs 66, 2, 3, ...,
    64 whatever the device does past its end: record 65 cannot be
    recovered and record 2, which is not among the 64 newest, is still
    there.  Where the write past the end is lost, the newest record is
    already missing after 65 saves. *)
Theorem save_round_robin_skips_a_record (p : EEPROM.oob) :
  wAddr (snd (after_saves p 64)) = 1024
  /\ wAddr (snd (after_saves p 65)) = 0
  /\ stored_ids (fst (after_saves p 66))
     = Some 66 :: List.map (fun i => Some (Z.of_nat i)) (seq 2 63)
  /\ stored_ids (fst (after_saves EEPROM.Dropped 65))
     = List.map (fun i => Some (Z.of_nat i)) (seq 1 64).
Proof.
  destruct p; repeat split; vm_compute; reflexivity.
Qed.

End RecordLog.

(** ** HOTGUN_CFG: Celsius to raw units and back *)
Section TemperatureRoundTrip.
Import Mach HOTGUN_CFG.

(** [map] on the small non-negative values of this program. *)
Lemma map_small (x a b c d : Z) :
  0 <= x - a <= 40000 -> 0 < b - a <= 40000 ->
  0 <= d - c <= 40000 -> 0 <= c <= 40000 ->
  map x a b c d = (x - a) * (d - c) / (b - a) + c.
Proof.
  intros Hx Hb Hd Hc. unfold map.
  rewrite (s32_small (x - a)), (s32_small (d - c)), (s32_small (b - a)) by lia.
  assert (0 <= (x - a) * (d - c) <= 40000 * 40000) by nia.
  rewrite (s32_small ((x - a) * (d - c))) by lia.
  rewrite Z.quot_div_nonneg by lia.
  assert (0 <= (x - a) * (d - c) / (b - a) <= 40000 * 40000).
  { split; [apply Z.div_pos; lia|].
    apply Z.div_le_upper_bound; [lia|]. nia. }
  apply s32_small. lia.
Qed.

Lemma correct_S (n : nat) (tt : list Z) (t temp : Z) :
  correct (S n) tt t temp
  = if tempHuman tt temp <=? t then temp else correct n tt t (u16 (temp - 1)).
Proof. reflexivity. Qed.

(** The arithmetic of one segment of at least 50 raw units per 100
    degrees: [k0] is the raw offset computed for the offset [y], [h0] the
    degrees it maps back to. *)
Lemma segment_there_and_back (d y : Z) :
  50 <= d -> 0 <= y ->
  let k0 := (y + 1) * d / 100 in
  let h0 := k0 * 100 / d in
  y - 1 <= h0 <= y + 1
  /\ (y < h0 -> 1 <= k0 /\ y - 1 <= (k0 - 1) * 100 / d <= y).
Proof.
  intros Hd Hy k0 h0.
  pose proof (Z.div_mod ((y + 1) * d) 100 ltac:(lia)) as Ek.
  pose proof (Z.mod_pos_bound ((y + 1) * d) 100 ltac:(lia)) as Bk.
  fold k0 in Ek.
  pose proof (Z.div_mod (k0 * 100) d ltac:(lia)) as Eh.
  pose proof (Z.mod_pos_bound (k0 * 100) d ltac:(lia)) as Bh.
  fold h0 in Eh.
  assert (Hk0 : 0 <= k0) by (apply Z.div_pos; nia).
  split; [split; nia|].
  intros Hover.
  assert (Hh0 : h0 = y + 1) by nia.
  assert (Hexact : (y + 1) * d = 100 * k0) by nia.
  assert (1 <= k0) by nia.
  pose proof (Z.div_mod ((k0 - 1) * 100) d ltac:(lia)) as E1.
  pose proof (Z.mod_pos_bound ((k0 - 1) * 100) d ltac:(lia)) as B1.
  split; [assumption|]. split; nia.
Qed.

(** [tempHuman] on the upper segment and beyond. *)
Lemma tempHuman_upper (r0 r1 r2 temp : Z) :
  1 <= r0 -> r0 < r1 -> r1 + 50 <= r2 -> r2 <= 1023 ->
  r1 <= temp <= r1 + 2000 ->
  tempHuman [r0; r1; r2] temp = 300 + (temp - r1) * 100 / (r2 - r1).
Proof.
  intros H0 H1 H2 H3 Ht. unfold tempHuman, ambient_temp, ambient_tempC.
  cbn [at_ lookup list_lookup from_option id temp_tip]. ztest.
  rewrite map_small by lia.
  assert (0 <= (temp - r1) * (400 - 300) / (r2 - r1) <= 4000).
  { split; [apply Z.div_pos; lia|].
    apply Z.div_le_upper_bound; [lia|]. nia. }
  rewrite u16_small by lia. change (400 - 300) with 100. lia.
Qed.

(** [tempHuman] on the lower segment. *)
Lemma tempHuman_lower (r0 r1 r2 temp : Z) :
  1 <= r0 -> r0 + 50 <= r1 -> r1 < r2 -> r2 <= 1023 ->
  r0 <= temp < r1 ->
  tempHuman [r0; r1; r2] temp = 200 + (temp - r0) * 100 / (r1 - r0).
Proof.
  intros H0 H1 H2 H3 Ht. unfold tempHuman, ambient_temp, ambient_tempC.
  cbn [at_ lookup list_lookup from_option id temp_tip]. ztest.
  rewrite map_small by lia.
  assert (0 <= (temp - r0) * (300 - 200) / (r1 - r0) <= 4000).
  { split; [apply Z.div_pos; lia|].
    apply Z.div_le_upper_bound; [lia|]. nia. }
  rewrite u16_small by lia. change (300 - 200) with 100. lia.
Qed.

Lemma tempInternal_start (r0 r1 r2 x : Z) :
  1 <= r0 -> r0 < r1 -> r1 < r2 -> r2 <= 1023 -> 200 <= x <= 400 ->
  tempInternal [r0; r1; r2] x
  = correct 10 [r0; r1; r2] x (start_raw r0 r1 r2 x).
Proof.
  intros H0 H1 H2 H3 Hx. unfold tempInternal, start_raw, temp_minC, temp_maxC.
  assert (Hc : constrain x 150 500 = x) by (unfold constrain; ztest; reflexivity).
  rewrite Hc. cbn [at_ lookup list_lookup from_option id temp_tip].
  rewrite (u16_small (x + 1)) by lia.
  destruct (Z.geb_spec x 300) as [Hge|Hlt].
  - rewrite map_small by lia. change (400 - 300) with 100.
    assert (0 <= (x + 1 - 300) * (r2 - r1) / 100 <= 2000).
    { split; [apply Z.div_pos; nia|].
      apply Z.div_le_upper_bound; [lia|]. nia. }
    rewrite u16_small by lia. f_equal. lia.
  - rewrite map_small by lia. change (300 - 200) with 100.
    assert (0 <= (x + 1 - 200) * (r1 - r0) / 100 <= 2000).
    { split; [apply Z.div_pos; nia|].
      apply Z.div_le_upper_bound; [lia|]. nia. }
    rewrite u16_small by lia. f_equal. lia.
Qed.

Lemma correct_stop (n : nat) (tt : list Z) (t temp : Z) :
  tempHuman tt temp <= t -> correct (S n) tt t temp = temp.
Proof. intros H. rewrite correct_S. ztest. reflexivity. Qed.

Lemma correct_one_back (n : nat) (tt : list Z) (t temp : Z) :
  t < tempHuman tt temp -> 1 <= temp < 65536 ->
  tempHuman tt (temp - 1) <= t ->
  correct (S (S n)) tt t temp = temp - 1.
Proof.
  intros H1 Ht H2. rewrite correct_S. ztest.
  rewrite (u16_small (temp - 1)) by lia. apply correct_stop. exact H2.
Qed.

(** C6 as stated fails for a calibration of 40 raw units per 100
    degrees: 204 is translated to the raw value 501, which reads back as
    202. *)
Lemma round_trip_coarse_calibration_counterexample :
  increasing [500; 540; 580] /\ 200 <= 204 <= 400
  /\ tempInternal [500; 540; 580] 204 = 501
  /\ tempHuman [500; 540; 580] 501 = 202
  /\ ~ Z.abs (tempHuman [500; 540; 580] (tempInternal [500; 540; 580] 204)
              - 204) <= 1.
Proof.
  repeat split; try (cbn; lia); try (vm_compute; reflexivity).
  vm_compute. intros H. apply H. reflexivity.
Qed.

(** C6, amended: for raw references r0 < r1 < r2 with r0 >= 1, at least
    50 raw units in each of the two segments and r2 <= 1023, and for every
    Celsius value x in the calibrated range 200..400, [tempInternal]
    starts from the inverse interpolation of x + 1 on the segment
    selected by x and steps down by at most one unit, stopping where
    [tempHuman] of the result no longer exceeds x; the round trip
    tempHuman(tempInternal(x)) is x or x - 1. *)
Theorem temperature_round_trip (r0 r1 r2 x : Z) :
  1 <= r0 -> r0 + 50 <= r1 -> r1 + 50 <= r2 -> r2 <= 1023 ->
  200 <= x <= 400 ->
  let tt := [r0; r1; r2] in
  tempInternal tt x = correct 10 tt x (start_raw r0 r1 r2 x)
  /\ start_raw r0 r1 r2 x - 1 <= tempInternal tt x <= start_raw r0 r1 r2 x
  /\ x - 1 <= tempHuman tt (tempInternal tt x) <= x.
Proof.
  intros H0 H1 H2 H3 Hx tt.
  pose proof (tempInternal_start r0 r1 r2 x H0 ltac:(lia) ltac:(lia) H3 Hx) as Es.
  fold tt in Es. split; [exact Es|]. rewrite Es. unfold start_raw.
  destruct (Z.geb_spec x 300) as [Hge|Hlt].
  - (* upper segment *)
    destruct (segment_there_and_back (r2 - r1) (x - 300)) as [Hh Hback];
      try lia.
    replace (x - 300 + 1) with (x + 1 - 300) in Hh, Hback by lia.
    set (k0 := (x + 1 - 300) * (r2 - r1) / 100) in *.
    assert (Hk : 0 <= k0 <= 1100).
    { split; [apply Z.div_pos; nia|].
      apply Z.div_le_upper_bound; [lia|]. nia. }
    assert (E0 : tempHuman tt (r1 + k0) = 300 + k0 * 100 / (r2 - r1)).
    { unfold tt. rewrite tempHuman_upper by lia. do 3 f_equal. lia. }
    destruct (Z.le_gt_cases (tempHuman tt (r1 + k0)) x) as [Hle|Hgt].
    + rewrite correct_stop by exact Hle. lia.
    + destruct Hback as [Hk1 Hh1]; [lia|].
      assert (E1 : tempHuman tt (r1 + k0 - 1)
                   = 300 + (k0 - 1) * 100 / (r2 - r1)).
      { unfold tt. rewrite tempHuman_upper by lia. do 3 f_equal. lia. }
      rewrite correct_one_back by lia. lia.
  - (* lower segment *)
    destruct (segment_there_and_back (r1 - r0) (x - 200)) as [Hh Hback];
      try lia.
    replace (x - 200 + 1) with (x + 1 - 200) in Hh, Hback by lia.
    set (k0 := (x + 1 - 200) * (r1 - r0) / 100) in *.
    assert (Hk : 0 <= k0 <= r1 - r0).
    { split; [apply Z.div_pos; nia|].
      apply Z.div_le_upper_bound; [lia|]. nia. }
    destruct (Z.eq_dec k0 (r1 - r0)) as [Htop|Hin].
    + (* the start is the middle reference itself *)
      assert (E0 : tempHuman tt (r0 + k0) = 300).
      { unfold tt. rewrite tempHuman_upper by lia.
        replace (r0 + k0 - r1) with 0 by lia. reflexivity. }
      assert (Ex : x = 299).
      { unfold k0 in Htop.
        pose proof (Z.div_mod ((x + 1 - 200) * (r1 - r0)) 100 ltac:(lia)).
        pose proof (Z.mod_pos_bound ((x + 1 - 200) * (r1 - r0)) 100 ltac:(lia)).
        nia. }
      assert (E1 : tempHuman tt (r0 + k0 - 1)
                   = 200 + (k0 - 1) * 100 / (r1 - r0)).
      { unfold tt. rewrite tempHuman_lower by lia. do 3 f_equal. lia. }
      assert (Hover : x - 200 < k0 * 100 / (r1 - r0)).
      { replace (k0 * 100) with (100 * (r1 - r0)) by lia.
        rewrite Z.div_mul by lia. lia. }
      destruct Hback as [Hk1 Hh1]; [exact Hover|].
      rewrite correct_one_back by lia. lia.
    + assert (E0 : tempHuman tt (r0 + k0) = 200 + k0 * 100 / (r1 - r0)).
      { unfold tt. rewrite tempHuman_lower by lia. do 3 f_equal. lia. }
      destruct (Z.le_gt_cases (tempHuman tt (r0 + k0)) x) as [Hle|Hgt].
      * rewrite correct_stop by exact Hle. lia.
      * destruct Hback as [Hk1 Hh1]; [lia|].
        assert (E1 : tempHuman tt (r0 + k0 - 1)
                     = 200 + (k0 - 1) * 100 / (r1 - r0)).
        { unfold tt. rewrite tempHuman_lower by lia. do 3 f_equal. lia. }
        rewrite correct_one_back by lia. lia.
Qed.

Lemma temperature_round_trip_witness :
  let tt := [587; 751; 850] in
  tempInternal tt 350 = correct 10 tt 350 (start_raw 587 751 850 350)
  /\ start_raw 587 751 850 350 - 1 <= tempInternal tt 350
     <= start_raw 587 751 850 350
  /\ 350 - 1 <= tempHuman tt (tempInternal tt 350) <= 350.
Proof.
  apply (temperature_round_trip 587 751 850 350); lia.
Defined.

End TemperatureRoundTrip.

(** ** HOTGUN: power, heater and fan outside the claims *)
Section PowerController.
Import Mach HOTGUN.

Lemma keep_fan_power (s : t) (temp : Z) :
  actual_power (keep_fan s temp) = actual_power s
  /\ gun_pin (keep_fan s temp) = gun_pin s
  /\ h_power (keep_fan s temp) = h_power s.
Proof.
  unfold keep_fan.
  destruct (fan s);
    [destruct ((actual_power s =? 0) && (temp <=? temp_gun_cold))
    |destruct (temp >? temp_gun_cold)];
    hg_fields; auto.
Qed.

Lemma regulate_power_in_period (s : t) (temp : Z) :
  power_in_period (regulate s temp).
Proof.
  unfold power_in_period.
  destruct (regulate_fields s temp) as (_ & A & _). rewrite A.
  pose proof (constrain_range
                (snd (PID.reqPower (pid s) (s16 (temp_set s)) (s16 temp)))
                0 period ltac:(unfold period; lia)) as C.
  unfold period in *. rewrite u8_small by lia. lia.
Qed.

Lemma keepTemp_power_in_period (s : t) (x : Z) :
  power_in_period s -> power_in_period (keepTemp s x).
Proof.
  intros Hs. unfold keepTemp.
  repeat match goal with
    | |- context [if ?c then _ else _] => destruct c eqn:?
    end;
    unfold power_in_period in *;
    rewrite ?(proj1 (keep_fan_power _ _));
    try (apply regulate_power_in_period);
    hg_fields; unfold period in *; try lia.
Qed.

Lemma fixPower_power_in_period (s : t) (P : Z) :
  0 <= P <= 255 -> power_in_period (fixPower s P).
Proof.
  intros HP. unfold power_in_period, fixPower, period.
  destruct (Z.eqb_spec P 0); hg_fields; [lia|].
  destruct (Z.gtb_spec P 100); hg_fields; rewrite u8_small; lia.
Qed.

Lemma switchPower_power_in_period (s : t) (On : bool) :
  power_in_period s -> power_in_period (switchPower s On).
Proof.
  intros Hs. unfold power_in_period, switchPower, period in *.
  destruct On; hg_fields; [|lia].
  destruct (fan_speed s <? min_fan_speed); hg_fields; lia.
Qed.

Lemma syncCB_actual_power (s : t) (now : Z) :
  actual_power (fst (syncCB s now)) = actual_power s.
Proof.
  unfold syncCB.
  repeat match goal with
    | |- context [if ?c then _ else _] => destruct c eqn:?
    end; reflexivity.
Qed.

(** The applied power never leaves [0, period]: [keepTemp], [fixPower],
    [switchPower] and [syncCB] all keep 0 <= actual_power <= period. *)
Theorem actual_power_stays_in_period (s : t) (x P now : Z) (On : bool) :
  power_in_period s -> 0 <= P <= 255 ->
  power_in_period (keepTemp s x)
  /\ power_in_period (fixPower s P)
  /\ power_in_period (switchPower s On)
  /\ power_in_period (fst (syncCB s now)).
Proof.
  intros Hs HP.
  split; [apply keepTemp_power_in_period; exact Hs|].
  split; [apply fixPower_power_in_period; exact HP|].
  split; [apply switchPower_power_in_period; exact Hs|].
  unfold power_in_period. rewrite syncCB_actual_power. exact Hs.
Qed.

Lemma actual_power_stays_in_period_witness :
  power_in_period (keepTemp regulating_600 590)
  /\ power_in_period (fixPower regulating_600 200)
  /\ power_in_period (switchPower regulating_600 false)
  /\ power_in_period (fst (syncCB regulating_600 17)).
Proof.
  apply (actual_power_stays_in_period regulating_600 590 200 17 false);
    [split; vm_compute; discriminate | lia].
Defined.

Lemma syncCB_no_power (s : t) (now : Z) :
  actual_power s = 0 -> gun_pin s = false ->
  gun_pin (fst (syncCB s now)) = false
  /\ actual_power (fst (syncCB s now)) = 0.
Proof.
  intros Hp Hg. split; [|rewrite syncCB_actual_power; exact Hp].
  unfold syncCB. hg_fields. rewrite Hp.
  change (0 >? 0) with false. rewrite andb_false_r.
  destruct (u8 (cnt s + 1) >=? period); hg_fields; [exact Hg|].
  destruct (u8 (cnt s + 1) >=? 0); hg_fields; [|exact Hg].
  destruct (active s); hg_fields; [reflexivity | exact Hg].
Qed.

Lemma no_power_run (clock : list Z) : forall s : t,
  actual_power s = 0 -> gun_pin s = false ->
  Forall (fun edge => fst edge = false) (fst (syncCB_run s clock))
  /\ gun_pin (snd (syncCB_run s clock)) = false
  /\ actual_power (snd (syncCB_run s clock)) = 0.
Proof.
  induction clock as [|now rest IH]; intros s Hp Hg.
  - cbn. auto.
  - cbn [syncCB_run].
    destruct (syncCB_no_power s now Hp Hg) as [G P].
    destruct (syncCB s now) as [s' r]. cbn [fst] in G, P.
    destruct (IH s' P G) as (F & G' & P').
    destruct (syncCB_run s' rest) as [tr sf]. cbn [fst snd] in *.
    split; [constructor; [exact G | exact F] | auto].
Qed.

(** With no applied power the zero-cross handler never raises the heater
    pin: from a state with [actual_power] = 0 and the pin low, the pin is
    low after every edge of any run of [syncCB], whatever the tick counter
    and the heater latch are. *)
Theorem heater_stays_off_without_power (clock : list Z) : forall s : t,
  actual_power s = 0 -> gun_pin s = false ->
  Forall (fun edge => fst edge = false) (fst (syncCB_run s clock))
  /\ gun_pin (snd (syncCB_run s clock)) = false
  /\ actual_power (snd (syncCB_run s clock)) = 0.
Proof. apply no_power_run. Qed.

Lemma heater_stays_off_without_power_witness :
  Forall (fun edge => fst edge = false)
         (fst (syncCB_run regulating_600 (List.map Z.of_nat (seq 1 250))))
  /\ gun_pin (snd (syncCB_run regulating_600 (List.map Z.of_nat (seq 1 250))))
     = false
  /\ actual_power (snd (syncCB_run regulating_600 (List.map Z.of_nat (seq 1 250))))
     = 0.
Proof.
  apply (heater_stays_off_without_power (List.map Z.of_nat (seq 1 250))
           regulating_600); reflexivity.
Defined.

Lemma high_ticks_app (a b : list (bool * bool)) :
  high_ticks (a ++ b) = (high_ticks a + high_ticks b)%nat.
Proof. unfold high_ticks. rewrite List.filter_app, length_app. reflexivity. Qed.

Lemma high_ticks_repeat (v r : bool) (n : nat) :
  high_ticks (repeat (v, r) n) = if v then n else O.
Proof.
  induction n as [|n IH]; [destruct v; reflexivity|].
  change (repeat (v, r) (S n)) with ([(v, r)] ++ repeat (v, r) n).
  rewrite high_ticks_app, IH. destruct v; reflexivity.
Qed.

Lemma high_ticks_all_low (tr : list (bool * bool)) :
  Forall (fun edge => fst edge = false) tr -> high_ticks tr = O.
Proof.
  induction 1 as [|[v r] tr Hv _ IH]; [reflexivity|].
  cbn [fst] in Hv. subst v. exact IH.
Qed.

(** One control cycle delivers exactly [actual_power] powered ticks: from
    the end of a cycle with the heater off, for any applied power p in
    0..100, the heater pin is high after exactly p of the next 100
    zero-cross edges. *)
Theorem cycle_delivers_applied_power (p : nat) (s : t) (clock : list Z) :
  (p <= 100)%nat ->
  cnt s = 99 -> active s = false -> gun_pin s = false ->
  actual_power s = Z.of_nat p -> length clock = 100%nat ->
  high_ticks (fst (syncCB_run s clock)) = p.
Proof.
  intros Hp Hc Ha Hg Hpow Hlen.
  destruct (Nat.eq_dec p 0%nat) as [->|Hp0].
  - destruct (no_power_run clock s Hpow Hg) as [F _].
    apply high_ticks_all_low. exact F.
  - destruct (Nat.eq_dec p 100%nat) as [->|Hp100].
    + destruct clock as [|now rest]; [discriminate|]. cbn [length] in Hlen.
      destruct (syncCB_wrap s now) as (s0 & E & C0 & A0 & G0 & P0);
        try assumption; try lia.
      destruct (powered_run rest s0) as (T & _); try assumption; try lia.
      cbn [syncCB_run]. rewrite E.
      destruct (syncCB_run s0 rest) as [tr sf]. cbn [fst] in *.
      rewrite G0, T.
      change ((true, true) :: repeat (true, false) (length rest))
        with ([(true, true)] ++ repeat (true, false) (length rest)).
      rewrite high_ticks_app, high_ticks_repeat. cbn. lia.
    + destruct (one_cycle p s clock) as [T _]; try assumption; try lia.
      rewrite T. unfold burst_cycle.
      change ((true, true) :: repeat (true, false) (p - 1)
              ++ repeat (false, false) (100 - p))
        with ([(true, true)] ++ repeat (true, false) (p - 1)
              ++ repeat (false, false) (100 - p)).
      rewrite !high_ticks_app, !high_ticks_repeat. cbn. lia.
Qed.

Lemma cycle_delivers_applied_power_witness :
  high_ticks
    (fst (syncCB_run (set_actual_power (set_cnt regulating_600 99) 42)
            (List.map Z.of_nat (seq 1 100))))
  = 42%nat.
Proof.
  apply (cycle_delivers_applied_power 42
           (set_actual_power (set_cnt regulating_600 99) 42)
           (List.map Z.of_nat (seq 1 100)));
    try reflexivity. lia.
Defined.

Lemma regulate_fan (s : t) (temp : Z) :
  fan (regulate s temp) = fan s /\ fan_duty (regulate s temp) = fan_duty s
  /\ fan_speed (regulate s temp) = fan_speed s.
Proof.
  unfold regulate.
  destruct (PID.reqPower (pid s) (s16 (temp_set s)) (s16 temp)) as [p pw].
  hg_fields. auto.
Qed.

(** [keepTemp] ends in the fan step, on a state whose fan fields are those
    it started with, except on the chilling-hold path, which returns with
    the fan untouched and Chilling set. *)
Lemma keepTemp_fan_shape (s : t) (x : Z) :
  (exists s', keepTemp s x = keep_fan s' (u16 x)
              /\ fan s' = fan s /\ fan_duty s' = fan_duty s
              /\ fan_speed s' = fan_speed s)
  \/ (fan (keepTemp s x) = fan s /\ fan_duty (keepTemp s x) = fan_duty s
      /\ chill (keepTemp s x) = true).
Proof.
  unfold keepTemp.
  repeat match goal with
    | |- context [if ?c then _ else _] => destruct c eqn:?
    end;
    try (left; eexists; split; [reflexivity|];
         rewrite ?(proj1 (regulate_fan _ _)),
                 ?(proj1 (proj2 (regulate_fan _ _))),
                 ?(proj2 (proj2 (regulate_fan _ _)));
         hg_fields; auto; fail);
    right; hg_fields; auto.
Qed.

(** The fan is only ever stopped cold and unpowered: if the fan was running
    and [keepTemp] stops it, then the applied power is 0 and the sample is
    at or below [temp_gun_cold]. *)
Theorem fan_stopped_only_cold_and_unpowered (s : t) (x : Z) :
  fan s = true -> fan (keepTemp s x) = false ->
  actual_power (keepTemp s x) = 0 /\ u16 x <= temp_gun_cold.
Proof.
  intros Hf Hoff.
  destruct (keepTemp_fan_shape s x) as [(s' & E & F & _)|(F & _)];
    [|congruence].
  rewrite E in *. rewrite (proj1 (keep_fan_power s' (u16 x))).
  unfold keep_fan in Hoff. rewrite F, Hf in Hoff.
  destruct ((actual_power s' =? 0) && (u16 x <=? temp_gun_cold)) eqn:C;
    [|congruence].
  apply andb_true_iff in C. destruct C as [C1 C2].
  apply Z.eqb_eq in C1. apply Z.leb_le in C2. auto.
Qed.

Lemma fan_stopped_only_cold_and_unpowered_witness :
  actual_power (keepTemp cooling_down 50) = 0 /\ u16 50 <= temp_gun_cold.
Proof.
  apply (fan_stopped_only_cold_and_unpowered cooling_down 50); reflexivity.
Defined.

(** The fan restarts on residual heat: with the fan stopped, a sample above
    [temp_gun_cold] makes [keepTemp] start it at the preset duty, on every
    path but the chilling hold (which returns before the fan step). *)
Theorem fan_restarts_when_hot (s : t) (x : Z) :
  fan s = false -> temp_gun_cold < u16 x -> chill (keepTemp s x) = false ->
  fan (keepTemp s x) = true /\ fan_duty (keepTemp s x) = u8 (fan_speed s).
Proof.
  intros Hf Hx Hc.
  destruct (keepTemp_fan_shape s x) as [(s' & E & F & _ & Sp)|(_ & _ & C)];
    [|congruence].
  rewrite E. unfold keep_fan. rewrite F, Hf.
  rewrite Z.gtb_ltb. rewrite (proj2 (Z.ltb_lt _ _)) by exact Hx.
  hg_fields. rewrite Sp. auto.
Qed.

Lemma fan_restarts_when_hot_witness :
  fan (keepTemp idle_cold 300) = true
  /\ fan_duty (keepTemp idle_cold 300) = u8 (fan_speed idle_cold).
Proof.
  apply (fan_restarts_when_hot idle_cold 300);
    [reflexivity | vm_compute; reflexivity | reflexivity].
Defined.

(** While the controller is off, [keepTemp] does not regulate: the PID
    state, the power history and the Chilling flag are untouched; the
    applied power is forced to 0 and the heater pin low, unless a fixed
    power is set, which is then left as it is. *)
Theorem keepTemp_while_off (s : t) (x : Z) :
  on s = false ->
  actual_power (keepTemp s x) = (if fix_power s then actual_power s else 0)
  /\ gun_pin (keepTemp s x) = (if fix_power s then gun_pin s else false)
  /\ pid (keepTemp s x) = pid s
  /\ h_power (keepTemp s x) = h_power s
  /\ chill (keepTemp s x) = chill s
  /\ h_temp (keepTemp s x) = HISTORY.put (h_temp s) (u16 x).
Proof.
  intros Hon. unfold keepTemp. hg_fields. rewrite Hon, andb_false_r.
  hg_fields. rewrite Hon.
  match goal with |- context [keep_fan ?s1 ?temp] =>
    destruct (keep_fan_power s1 temp) as (A & G & H);
    destruct (keep_fan_fields s1 temp) as (P & C & _)
  end.
  rewrite A, G, H, P, C.
  unfold keep_fan.
  destruct (fix_power s); hg_fields;
    repeat match goal with
      | |- context [if ?c then _ else _] => destruct c
      end; hg_fields; repeat split; reflexivity.
Qed.

Lemma keepTemp_while_off_witness :
  actual_power (keepTemp cooling_down 300)
  = (if fix_power cooling_down then actual_power cooling_down else 0)
  /\ gun_pin (keepTemp cooling_down 300)
     = (if fix_power cooling_down then gun_pin cooling_down else false)
  /\ pid (keepTemp cooling_down 300) = pid cooling_down
  /\ h_power (keepTemp cooling_down 300) = h_power cooling_down
  /\ chill (keepTemp cooling_down 300) = chill cooling_down
  /\ h_temp (keepTemp cooling_down 300)
     = HISTORY.put (h_temp cooling_down) (u16 300).
Proof.
  apply (keepTemp_while_off cooling_down 300). reflexivity.
Defined.

Lemma regulate_fix_power (s : t) (temp : Z) (b : bool) :
  regulate (set_fix_power s b) temp = set_fix_power (regulate s temp) b.
Proof.
  unfold regulate. hg_fields.
  destruct (PID.reqPower (pid s) (s16 (temp_set s)) (s16 temp)) as [p pw].
  reflexivity.
Qed.

Lemma keep_fan_fix_power (s : t) (temp : Z) (b : bool) :
  keep_fan (set_fix_power s b) temp = set_fix_power (keep_fan s temp) b.
Proof.
  unfold keep_fan. hg_fields.
  destruct (fan s);
    [destruct ((actual_power s =? 0) && (temp <=? temp_gun_cold))
    |destruct (temp >? temp_gun_cold)]; reflexivity.
Qed.

(** While the controller is on, [keepTemp] never reads the fixed-power
    flag: the PID law runs and sets the applied power whether or not a
    fixed power was requested.  Setting the flag before the call or after it
    gives the same state. *)
Theorem keepTemp_on_ignores_fix_power (s : t) (x : Z) (b : bool) :
  on s = true ->
  keepTemp (set_fix_power s b) x = set_fix_power (keepTemp s x) b.
Proof.
  intros Hon. unfold keepTemp. hg_fields. rewrite Hon.
  destruct (negb (chill s) && true && (u16 x >? u16 (temp_set s + 20))) eqn:Trip;
    hg_fields; rewrite ?Hon.
  - destruct (u16 x <? u16 (temp_set s - 8)).
    + rewrite <- keep_fan_fix_power, <- regulate_fix_power. reflexivity.
    + reflexivity.
  - destruct (chill s).
    + destruct (u16 x <? u16 (temp_set s - 8)).
      * rewrite <- keep_fan_fix_power, <- regulate_fix_power. reflexivity.
      * reflexivity.
    + rewrite <- keep_fan_fix_power, <- regulate_fix_power. reflexivity.
Qed.

Lemma keepTemp_on_ignores_fix_power_witness :
  keepTemp (set_fix_power regulating_600 true) 590
  = set_fix_power (keepTemp regulating_600 590) true.
Proof.
  apply (keepTemp_on_ignores_fix_power regulating_600 590 true). reflexivity.
Defined.

Lemma syncCB_liveness_step (s : t) (now t0 : Z) :
  0 <= cnt s < 100 -> 0 <= last_period s <= t0 ->
  t0 - last_period s <= 10 * cnt s ->
  t0 <= now <= t0 + 10 -> now < 4294967296 ->
  let s' := fst (syncCB s now) in
  0 <= cnt s' < 100 /\ 0 <= last_period s' <= now
  /\ now - last_period s' <= 10 * cnt s'.
Proof.
  intros Hc Hl Hd Hn Hmax. unfold syncCB. hg_fields.
  rewrite (u8_small (cnt s + 1)) by lia. unfold period.
  destruct (Z.geb_spec (cnt s + 1) 100) as [Hw|Hin]; hg_fields.
  - assert (E : u32 now = now) by (apply u32_small; lia).
    destruct (negb (active s) && (actual_power s >? 0));
      cbn [fst]; hg_fields; rewrite ?E; lia.
  - destruct (cnt s + 1 >=? actual_power s); hg_fields;
      [destruct (active s); hg_fields|]; cbn [fst]; hg_fields; lia.
Qed.

(** The mains-loss check keeps passing while zero-cross edges keep coming:
    from a state whose last wrap-around is consistent with its tick counter
    (at most 10 ms per tick since), if successive edges are never more than
    10 ms apart, then after every edge, and up to 9 ms after it,
    [areExternalInterrupts] is true. *)
Theorem liveness_check_passes_while_edges_arrive (clock : list Z) :
  forall (s : t) (t0 : Z),
    0 <= cnt s < 100 -> 0 <= last_period s <= t0 ->
    t0 - last_period s <= 10 * cnt s ->
    paced 10 t0 clock ->
    Forall (fun now => now < 4294967296 - 9) clock ->
    Forall (fun e => forall t', fst e <= t' <= fst e + 9 ->
                                areExternalInterrupts (snd e) t' = true)
           (syncCB_states s clock).
Proof.
  induction clock as [|now rest IH]; intros s t0 Hc Hl Hd Hp Hmax.
  - constructor.
  - destruct Hp as [Hn Hrest].
    inversion Hmax as [|? ? Hnow Hmax']; subst.
    destruct (syncCB_liveness_step s now t0 Hc Hl Hd Hn ltac:(lia))
      as (C & L & D).
    cbn [syncCB_states]. constructor.
    + cbn [fst snd]. intros t' Ht'. unfold areExternalInterrupts, period.
      rewrite (u32_small t') by lia.
      rewrite u32_small by lia.
      apply Z.ltb_lt. lia.
    + apply (IH _ now); try assumption; lia.
Qed.

Lemma liveness_check_passes_while_edges_arrive_witness :
  Forall (fun e => forall t', fst e <= t' <= fst e + 9 ->
                              areExternalInterrupts (snd e) t' = true)
         (syncCB_states regulating_600 [5; 15; 25; 30; 40]).
Proof.
  apply (liveness_check_passes_while_edges_arrive [5; 15; 25; 30; 40]
           regulating_600 0).
  - cbv. intuition discriminate.
  - cbv. intuition discriminate.
  - cbv. intuition discriminate.
  - cbn [paced]. repeat split; lia.
  - repeat constructor; lia.
Defined.

End PowerController.

(** ** HISTORY: the ring *)
Section HistoryRing.
Import Mach HISTORY.

Lemma put_all_snoc (h : t) (l : list Z) (x : Z) :
  put_all h (l ++ [x]) = put (put_all h l) x.
Proof. unfold put_all. rewrite fold_left_app. reflexivity. Qed.

Lemma ring_of_put (l : list Z) (h : t) (x : Z) :
  ring_of l h -> 0 <= x < 65536 -> ring_of (l ++ [x]) (put h x).
Proof.
  intros (Hq & Hlen & Hidx & Hcells) Hx.
  unfold ring_of. rewrite length_app. cbn [length].
  unfold put, H_LENGTH. rewrite (u16_small x) by lia.
  destruct (Nat.ltb_spec (length l) 16) as [Hlt|Hge].
  - (* still filling *)
    assert (El : len h = Z.of_nat (length l)) by lia.
    rewrite El. ztest. cbn [queue len index].
    rewrite Nat2Z.id, length_insert, u8_small by lia.
    split; [exact Hq|]. split; [lia|]. split.
    + rewrite Hidx. destruct (Nat.ltb_spec (length l + 1) 16); [reflexivity|].
      replace (length l + 1)%nat with 16%nat by lia. reflexivity.
    + intros j Hj1 Hj2.
      rewrite (Nat.mod_small j 16) by lia.
      destruct (Nat.eq_dec j (length l)) as [->|Hne].
      * rewrite list_lookup_insert_eq by lia.
        rewrite lookup_app_r by lia. rewrite Nat.sub_diag. reflexivity.
      * rewrite list_lookup_insert_ne by lia.
        rewrite lookup_app_l by lia.
        rewrite <- (Hcells j) by lia. rewrite Nat.mod_small by lia. reflexivity.
  - (* full: overwrite in ring order *)
    assert (El : len h = 16) by lia.
    rewrite El. ztest. cbn [queue len index]. rewrite Hidx.
    pose proof (Nat.mod_upper_bound (length l) 16 ltac:(lia)) as Hm.
    pose proof (Nat.div_mod_eq (length l) 16) as Hd.
    pose proof (Nat.mod_upper_bound (length l + 1) 16 ltac:(lia)) as Hm1.
    pose proof (Nat.div_mod_eq (length l + 1) 16) as Hd1.
    rewrite Nat2Z.id, length_insert.
    rewrite (u8_small (Z.of_nat (length l mod 16) + 1)) by lia.
    split; [exact Hq|]. split; [lia|]. split.
    + destruct (Nat.ltb_spec (length l + 1) 16); [lia|].
      destruct (Z.geb_spec (Z.of_nat (length l mod 16) + 1) 16); lia.
    + intros j Hj1 Hj2.
      pose proof (Nat.mod_upper_bound j 16 ltac:(lia)) as Hmj.
      pose proof (Nat.div_mod_eq j 16) as Hdj.
      destruct (Nat.eq_dec j (length l)) as [->|Hne].
      * rewrite list_lookup_insert_eq by lia.
        rewrite lookup_app_r by lia. rewrite Nat.sub_diag. reflexivity.
      * rewrite list_lookup_insert_ne by lia.
        rewrite lookup_app_l by lia.
        apply Hcells; lia.
Qed.

Lemma put_all_ring (q0 l : list Z) :
  length q0 = 16%nat -> Forall (fun x => 0 <= x < 65536) l ->
  ring_of l (put_all (mk q0 0 0) l).
Proof.
  intros Hq. induction l as [|x l IH] using rev_ind; intros Hl.
  - unfold ring_of. cbn. repeat split; try assumption. intros j Hj. lia.
  - apply Forall_app in Hl. destruct Hl as [Hl Hx].
    inversion Hx; subst.
    rewrite put_all_snoc. apply ring_of_put; [apply IH; exact Hl | assumption].
Qed.

(** The ring never holds more than its capacity and always holds the
    latest samples: after any number of [put] calls on an empty buffer the
    count is min(n, 16), and each of the last 16 samples is in the cell of
    its rank modulo 16, older ones having been overwritten in ring order. *)
Theorem ring_holds_latest_samples (q0 l : list Z) :
  length q0 = 16%nat -> Forall (fun x => 0 <= x < 65536) l ->
  ring_of l (put_all (mk q0 0 0) l).
Proof. apply put_all_ring. Qed.

Lemma ring_holds_latest_samples_witness :
  ring_of (List.map Z.of_nat (seq 100 40))
          (put_all empty_history (List.map Z.of_nat (seq 100 40))).
Proof.
  apply (ring_holds_latest_samples (repeat 0 16) (List.map Z.of_nat (seq 100 40)));
    [reflexivity|].
  apply Forall_forall. intros x Hx.
  apply list_elem_of_In, in_map_iff in Hx. destruct Hx as (n & <- & Hn).
  apply in_seq in Hn. lia.
Defined.

Lemma ring_last (l : list Z) (h : t) :
  ring_of l h -> last h = List.last l 0.
Proof.
  intros (Hq & Hlen & Hidx & Hcells). unfold last.
  destruct l as [|y l'] using rev_ind.
  - rewrite Hlen. reflexivity.
  - clear IHl'. rewrite List.last_last.
    rewrite length_app in *. cbn [length] in *.
    set (n := length l') in *.
    assert (Hcell : queue h !! (n mod 16)%nat = Some y).
    { rewrite (Hcells n) by lia. rewrite lookup_app_r by (unfold n; lia).
      unfold n. rewrite Nat.sub_diag. reflexivity. }
    pose proof (Nat.mod_upper_bound n 16 ltac:(lia)) as Hm.
    pose proof (Nat.div_mod_eq n 16) as Hd.
    pose proof (Nat.mod_upper_bound (n + 1) 16 ltac:(lia)) as Hm1.
    pose proof (Nat.div_mod_eq (n + 1) 16) as Hd1.
    assert (Hpos : (if len h =? 0 then 0 else 1) = 1)
      by (destruct (Z.eqb_spec (len h) 0); lia).
    destruct (Z.eqb_spec (len h) 0) as [E0|_]; [lia|].
    assert (Ei : Z.to_nat (if index h =? 0 then u8 (len h - 1)
                           else u8 (index h - 1)) = (n mod 16)%nat).
    { rewrite Hidx, Hlen.
      destruct (Nat.ltb_spec (n + 1) 16) as [Hlt|Hge].
      - cbn [Z.eqb]. rewrite u8_small by lia. lia.
      - destruct (Z.eqb_spec (Z.of_nat ((n + 1) mod 16)) 0);
          rewrite u8_small by lia; lia. }
    rewrite Ei. unfold at_. rewrite Hcell. reflexivity.
Qed.

(** [last] is the most recently stored sample, before and after the ring
    has wrapped, and 0 on an empty buffer. *)
Theorem last_is_latest_sample (q0 l : list Z) :
  length q0 = 16%nat -> Forall (fun x => 0 <= x < 65536) l ->
  last (put_all (mk q0 0 0) l) = List.last l 0.
Proof.
  intros Hq Hl. apply ring_last. apply put_all_ring; assumption.
Qed.

Lemma last_is_latest_sample_witness :
  last (put_all empty_history [7; 8; 9; 10; 11; 12; 13; 14; 15; 16; 17; 18;
                               19; 20; 21; 22; 23; 24; 25])
  = List.last [7; 8; 9; 10; 11; 12; 13; 14; 15; 16; 17; 18;
               19; 20; 21; 22; 23; 24; 25] 0.
Proof.
  apply (last_is_latest_sample (repeat 0 16)); [reflexivity|].
  repeat constructor; lia.
Defined.

Lemma regulate_h_temp (s : HOTGUN.t) (temp : Z) :
  HOTGUN.h_temp (HOTGUN.regulate s temp) = HOTGUN.h_temp s.
Proof.
  unfold HOTGUN.regulate.
  destruct (PID.reqPower _ _ _) as [p pw]. reflexivity.
Qed.

Lemma keep_fan_h_temp (s : HOTGUN.t) (temp : Z) :
  HOTGUN.h_temp (HOTGUN.keep_fan s temp) = HOTGUN.h_temp s.
Proof.
  unfold HOTGUN.keep_fan.
  destruct (HOTGUN.fan s);
    [destruct ((HOTGUN.actual_power s =? 0) && (temp <=? HOTGUN.temp_gun_cold))
    |destruct (temp >? HOTGUN.temp_gun_cold)]; reflexivity.
Qed.

Lemma keepTemp_h_temp (s : HOTGUN.t) (x : Z) :
  HOTGUN.h_temp (HOTGUN.keepTemp s x) = put (HOTGUN.h_temp s) (u16 x).
Proof.
  unfold HOTGUN.keepTemp.
  repeat match goal with
         | |- context [if ?c then _ else _] => destruct c
         end;
    rewrite ?keep_fan_h_temp, ?regulate_h_temp; reflexivity.
Qed.

(** [getCurrTemp] after [keepTemp] is the sample that call has just read,
    on every path of [keepTemp], for a temperature history that has only
    been filled by [put] since it was empty. *)
Theorem getCurrTemp_is_latest_sample (s : HOTGUN.t) (l : list Z) (x : Z) :
  ring_of l (HOTGUN.h_temp s) ->
  HOTGUN.getCurrTemp (HOTGUN.keepTemp s x) = u16 x.
Proof.
  intros Hr. unfold HOTGUN.getCurrTemp. rewrite keepTemp_h_temp.
  rewrite (ring_last (l ++ [u16 x])).
  - apply List.last_last.
  - apply ring_of_put; [exact Hr | apply u16_range].
Qed.

Lemma getCurrTemp_is_latest_sample_witness :
  HOTGUN.getCurrTemp (HOTGUN.keepTemp regulating_600 612) = u16 612.
Proof.
  apply (getCurrTemp_is_latest_sample regulating_600 [] 612).
  apply (put_all_ring (repeat 0 16) []); [reflexivity | constructor].
Defined.

End HistoryRing.

(** ** PID: the direct law *)
Section DirectLaw.
Import Mach PID.

Lemma reqPower_direct_step (Kp0 Ki0 acc : Z) (p : t) (S x : Z) :
  direct_law Kp0 Ki0 acc p ->
  0 <= Kp0 -> 0 <= Ki0 -> 0 <= acc ->
  0 <= x <= 1023 -> 0 <= S <= 1023 -> 30 <= S - x ->
  Kp0 * 1023 + Ki0 * (acc + 1023) < 2147483648 - 1024 ->
  acc + 1023 < 2147483648 ->
  direct_law Kp0 Ki0 (acc + (S - x)) (fst (reqPower p S x))
  /\ temp_h1 (fst (reqPower p S x)) = x
  /\ snd (reqPower p S x)
     = (Kp0 * (S - x) + Ki0 * (acc + (S - x)) + 1024) / 2048.
Proof.
  intros (H0 & Hit & Hsum & HKp & HKi) HKp0 HKi0 Hacc Hx HS He Hfit Hfit2.
  unfold reqPower, direct_law, denominator_p. rewrite H0, Hit, Hsum, HKp, HKi.
  change (0 =? 0) with true. cbv iota.
  rewrite (s16_small (S - x)) by lia. ztest. cbn [negb andb].
  cbn [temp_h0 temp_h1 pid_iterate i_summ power Kp Ki Kd fst snd].
  rewrite (s32_small (acc + (S - x))) by lia.
  assert (0 <= Kp0 * (S - x) <= Kp0 * 1023) by nia.
  assert (0 <= Ki0 * (acc + (S - x)) <= Ki0 * (acc + 1023)) by nia.
  rewrite (s32_small (Kp0 * (S - x))) by lia.
  rewrite (s32_small (Ki0 * (acc + (S - x)))) by lia.
  rewrite (s32_small (Kp0 * (S - x) + Ki0 * (acc + (S - x)))) by lia.
  change (Z.shiftl 1 (11 - 1)) with 1024.
  rewrite s32_small by lia.
  rewrite Z.shiftr_div_pow2 by lia. change (2 ^ 11) with 2048.
  repeat split; reflexivity.
Qed.

Lemma total_app (a b : list Z) : total (a ++ b) = total a + total b.
Proof.
  induction a as [|x a IH]; cbn [app total fold_right]; [reflexivity|].
  fold (total (a ++ b)). fold (total a). rewrite IH. lia.
Qed.

Lemma resetPID_direct (p : t) (temp : Z) :
  direct_law (Kp p) (Ki p) 0 (resetPID p temp).
Proof. unfold direct_law, resetPID. cbn. auto. Qed.

Lemma direct_run (Kp0 Ki0 S : Z) (l : list Z) : forall (p : t) (acc : Z),
  direct_law Kp0 Ki0 acc p ->
  0 <= Kp0 -> 0 <= Ki0 -> 0 <= acc -> 0 <= S <= 1023 ->
  Forall (fun y => 0 <= y <= 1023 /\ 30 <= S - y) l ->
  Kp0 * 1023 + Ki0 * (acc + 1023 * Z.of_nat (length l)) < 2147483648 - 1024 ->
  acc + 1023 * Z.of_nat (length l) < 2147483648 ->
  direct_law Kp0 Ki0 (acc + total (List.map (fun y => S - y) l))
             (reqPower_run p S l)
  /\ 0 <= total (List.map (fun y => S - y) l) <= 1023 * Z.of_nat (length l).
Proof.
  induction l as [|x l IH]; intros p acc Hp HKp HKi Hacc HS Hl Hfit Hfit2.
  - cbn. rewrite Z.add_0_r. auto with zarith.
  - inversion Hl as [|? ? [Hx He] Hl']; subst.
    cbn [length] in Hfit, Hfit2. rewrite Nat2Z.inj_succ in Hfit, Hfit2.
    destruct (reqPower_direct_step Kp0 Ki0 acc p S x) as (D & _ & _);
      try assumption; try nia.
    destruct (IH (fst (reqPower p S x)) (acc + (S - x))) as (D' & B);
      try assumption; try nia.
    cbn [List.map total fold_right length]. fold (total (List.map (fun y => S - y) l)).
    unfold reqPower_run in *. cbn [fold_left].
    rewrite Nat2Z.inj_succ.
    split; [|lia].
    replace (acc + (S - x + total (List.map (fun y => S - y) l)))
      with (acc + (S - x) + total (List.map (fun y => S - y) l)) by lia.
    exact D'.
Qed.

(** Far from the setpoint the regulator is a plain PI law whose integral
    keeps growing: from a reset, while every sample is at least 30 units
    below the setpoint, each call returns
    (Kp * error + Ki * (sum of all errors so far) + 1024) / 2048 and the
    recurrence mode is not entered. *)
Theorem direct_law_far_from_setpoint (p : t) (S : Z) (l : list Z) (x : Z) :
  0 <= Kp p -> 0 <= Ki p -> 0 <= S <= 1023 ->
  Forall (fun y => 0 <= y <= 1023 /\ 30 <= S - y) (l ++ [x]) ->
  (Kp p + Ki p * (Z.of_nat (length l) + 1)) * 1023 < 2147483648 - 1024 ->
  1023 * (Z.of_nat (length l) + 1) < 2147483648 ->
  let p1 := reqPower_run (resetPID p (-1)) S l in
  snd (reqPower p1 S x)
  = (Kp p * (S - x) + Ki p * total (List.map (fun y => S - y) (l ++ [x])) + 1024)
    / 2048
  /\ pid_iterate (fst (reqPower p1 S x)) = false
  /\ temp_h0 (fst (reqPower p1 S x)) = 0.
Proof.
  intros HKp HKi HS Hall Hfit Hfit2 p1.
  apply Forall_app in Hall. destruct Hall as [Hl Hx].
  inversion Hx as [|? ? [Hx1 Hx2] _]; subst.
  assert (Hn : 0 <= Ki p * Z.of_nat (length l)) by (apply Z.mul_nonneg_nonneg; lia).
  destruct (direct_run (Kp p) (Ki p) S l (resetPID p (-1)) 0) as (D & B);
    try assumption; try lia; [apply resetPID_direct|].
  pose proof (total_bounds (List.map (fun y => S - y) l) 1024) as Htot.
  fold p1 in D. rewrite Z.add_0_l in D.
  destruct (reqPower_direct_step (Kp p) (Ki p)
              (total (List.map (fun y => S - y) l)) p1 S x)
    as ((H0 & Hit & _) & _ & Hout); try assumption; try lia; try nia.
  split; [|auto].
  rewrite Hout. rewrite List.map_app, total_app. cbn [List.map total fold_right].
  do 3 f_equal. lia.
Qed.

Lemma direct_law_far_from_setpoint_witness :
  let p1 := reqPower_run (resetPID default_pid (-1)) 300 [200; 230] in
  snd (reqPower p1 300 250)
  = (Kp default_pid * (300 - 250)
     + Ki default_pid * total (List.map (fun y => 300 - y) ([200; 230] ++ [250]))
     + 1024) / 2048
  /\ pid_iterate (fst (reqPower p1 300 250)) = false
  /\ temp_h0 (fst (reqPower p1 300 250)) = 0.
Proof.
  apply (direct_law_far_from_setpoint default_pid 300 [200; 230] 250);
    try (cbn; lia).
  repeat constructor; lia.
Defined.

(** The accumulated integral is discarded on entering the near zone: in
    the direct law, whatever error sum has built up, the first call with
    the sample less than 30 units below the setpoint (or above it) restarts
    the sum from that error alone, returns
    ((Kp + Ki) * error + 1024) / 2048 and switches the iterating flag on. *)
Theorem integral_discarded_near_setpoint (p : t) (S x : Z) :
  temp_h0 p = 0 -> pid_iterate p = false ->
  0 <= Kp p <= 32767 -> 0 <= Ki p <= 32767 ->
  0 <= x <= 1023 -> 0 <= S <= 1023 -> S - x < 30 ->
  snd (reqPower p S x) = ((Kp p + Ki p) * (S - x) + 1024) / 2048
  /\ i_summ (fst (reqPower p S x)) = S - x
  /\ pid_iterate (fst (reqPower p S x)) = true
  /\ temp_h0 (fst (reqPower p S x)) = temp_h1 p
  /\ temp_h1 (fst (reqPower p S x)) = x.
Proof.
  intros H0 Hit HKp HKi Hx HS He.
  unfold reqPower, denominator_p. rewrite H0, Hit.
  change (0 =? 0) with true. cbv iota.
  rewrite (s16_small (S - x)) by lia. ztest. cbn [negb andb].
  cbn [temp_h0 temp_h1 pid_iterate i_summ power Kp Ki Kd fst snd].
  rewrite (s32_small (0 + (S - x))) by lia.
  assert (-32767 * 1023 <= Kp p * (S - x) <= 32767 * 30) by nia.
  assert (-32767 * 1023 <= Ki p * (0 + (S - x)) <= 32767 * 30) by nia.
  rewrite (s32_small (Kp p * (S - x))) by lia.
  rewrite (s32_small (Ki p * (0 + (S - x)))) by lia.
  rewrite (s32_small (Kp p * (S - x) + Ki p * (0 + (S - x)))) by lia.
  change (Z.shiftl 1 (11 - 1)) with 1024.
  rewrite s32_small by lia.
  rewrite Z.shiftr_div_pow2 by lia. change (2 ^ 11) with 2048.
  repeat split; try reflexivity; try lia.
  f_equal. ring.
Qed.

Lemma integral_discarded_near_setpoint_witness :
  let p := reqPower_run (resetPID default_pid (-1)) 300 [200; 230; 260] in
  snd (reqPower p 300 280) = ((Kp p + Ki p) * (300 - 280) + 1024) / 2048
  /\ i_summ (fst (reqPower p 300 280)) = 300 - 280
  /\ pid_iterate (fst (reqPower p 300 280)) = true
  /\ temp_h0 (fst (reqPower p 300 280)) = temp_h1 p
  /\ temp_h1 (fst (reqPower p 300 280)) = 280.
Proof.
  apply (integral_discarded_near_setpoint
           (reqPower_run (resetPID default_pid (-1)) 300 [200; 230; 260])
           300 280);
    vm_compute; repeat split; first [reflexivity | discriminate].
Defined.

End DirectLaw.

(** ** HOTGUN_CFG: the calibration curve and the packed word *)
Section CalibrationCurve.
Import Mach HOTGUN_CFG.

(** [tempHuman] by segment, inside the calibrated raw range. *)
Lemma tempHuman_cases (r0 r1 r2 temp : Z) :
  1 <= r0 -> r0 < r1 -> r1 < r2 -> r2 <= 1023 -> 0 <= temp <= r2 ->
  let tH := tempHuman [r0; r1; r2] temp in
  (temp = 0 /\ tH = 25)
  \/ (0 < temp < r0 /\ tH = 25 + temp * 175 / r0 /\ 25 <= tH < 200)
  \/ (r0 <= temp < r1 /\ tH = 200 + (temp - r0) * 100 / (r1 - r0)
      /\ 200 <= tH < 300)
  \/ (r1 <= temp /\ tH = 300 + (temp - r1) * 100 / (r2 - r1)
      /\ 300 <= tH <= 400).
Proof.
  intros H0 H1 H2 H3 Ht tH. unfold tH, tempHuman, ambient_temp, ambient_tempC.
  cbn [at_ lookup list_lookup from_option id temp_tip].
  destruct (Z.leb_spec temp 0) as [Hz|Hpos]; [left; split; [lia|reflexivity]|].
  right.
  destruct (Z.ltb_spec temp r0) as [Hlow|Hr0].
  - left. rewrite map_small by lia. change (200 - 25) with 175.
    replace (temp - 0) with temp by lia. replace (r0 - 0) with r0 by lia.
    assert (0 <= temp * 175 / r0 < 175).
    { split; [apply Z.div_pos; lia|]. apply Z.div_lt_upper_bound; nia. }
    rewrite u16_small by lia. lia.
  - right. destruct (Z.geb_spec temp r1) as [Hup|Hmid].
    + right. rewrite map_small by lia. change (400 - 300) with 100.
      assert (0 <= (temp - r1) * 100 / (r2 - r1) <= 100).
      { split; [apply Z.div_pos; lia|]. apply Z.div_le_upper_bound; nia. }
      rewrite u16_small by lia. lia.
    + left. rewrite map_small by lia. change (300 - 200) with 100.
      assert (0 <= (temp - r0) * 100 / (r1 - r0) < 100).
      { split; [apply Z.div_pos; lia|]. apply Z.div_lt_upper_bound; nia. }
      rewrite u16_small by lia. lia.
Qed.

(** The calibration curve is anchored and never decreases: for increasing
    references with 1 <= r0 and r2 <= 1023, [tempHuman] gives 25 at raw 0
    and 200, 300, 400 at the three references, and over the raw range
    0..r2 a larger raw value never reads as a lower temperature. *)
Theorem tempHuman_anchored_and_monotone (r0 r1 r2 a b : Z) :
  1 <= r0 -> r0 < r1 -> r1 < r2 -> r2 <= 1023 ->
  0 <= a -> a <= b -> b <= r2 ->
  let tt := [r0; r1; r2] in
  tempHuman tt 0 = 25 /\ tempHuman tt r0 = 200
  /\ tempHuman tt r1 = 300 /\ tempHuman tt r2 = 400
  /\ tempHuman tt a <= tempHuman tt b.
Proof.
  intros H0 H1 H2 H3 Ha Hab Hb tt. unfold tt.
  split; [reflexivity|].
  split.
  { destruct (tempHuman_cases r0 r1 r2 r0) as [C|[C|[C|C]]]; try lia.
    destruct C as (_ & E & _). rewrite E.
    replace (r0 - r0) with 0 by lia. reflexivity. }
  split.
  { destruct (tempHuman_cases r0 r1 r2 r1) as [C|[C|[C|C]]]; try lia.
    destruct C as (_ & E & _). rewrite E.
    replace (r1 - r1) with 0 by lia. reflexivity. }
  split.
  { destruct (tempHuman_cases r0 r1 r2 r2) as [C|[C|[C|C]]]; try lia.
    destruct C as (_ & E & _). rewrite E.
    rewrite (Z.mul_comm (r2 - r1) 100), Z.div_mul by lia. reflexivity. }
  destruct (tempHuman_cases r0 r1 r2 a) as [A|[A|[A|A]]]; try lia;
    destruct (tempHuman_cases r0 r1 r2 b) as [B|[B|[B|B]]]; try lia;
    destruct A as (Ar & Ae & Ab); destruct B as (Br & Be & Bb); try lia.
  - rewrite Ae, Be. apply Z.add_le_mono_l.
    apply Z.div_le_mono; lia.
  - rewrite Ae, Be. apply Z.add_le_mono_l.
    apply Z.div_le_mono; lia.
  - rewrite Ae, Be. apply Z.add_le_mono_l.
    apply Z.div_le_mono; lia.
Qed.

Lemma tempHuman_anchored_and_monotone_witness :
  let tt := [587; 751; 850] in
  tempHuman tt 0 = 25 /\ tempHuman tt 587 = 200
  /\ tempHuman tt 751 = 300 /\ tempHuman tt 850 = 400
  /\ tempHuman tt 640 <= tempHuman tt 641.
Proof.
  apply (tempHuman_anchored_and_monotone 587 751 850 640 641); lia.
Defined.

(** The gun counts as cold below one seventh of the low reference: for a
    low reference r0 in 1..1023, [isCold] holds of a raw value exactly when
    7 * raw < r0 (the mapped temperature 25 + raw*175/r0 is below 50). *)
Theorem isCold_below_seventh_of_low_reference (st : t) (temp : Z) :
  1 <= at_ (t_tip st) 0 <= 1023 -> 0 <= temp <= 65535 ->
  (isCold st temp = true <-> 7 * temp < at_ (t_tip st) 0).
Proof.
  intros Hr Ht. unfold isCold, ambient_temp, ambient_tempC.
  set (r0 := at_ (t_tip st) 0) in *.
  cbn [at_ lookup list_lookup from_option id temp_tip].
  destruct (Z.ltb_spec temp r0) as [Hlt|Hge]; cbn [andb].
  - rewrite map_small by lia. change (200 - 25) with 175.
    replace (temp - 0) with temp by lia. replace (r0 - 0) with r0 by lia.
    pose proof (Z.div_mod (temp * 175) r0 ltac:(lia)) as E.
    pose proof (Z.mod_pos_bound (temp * 175) r0 ltac:(lia)) as B.
    rewrite Z.ltb_lt. split; intros H; nia.
  - split; [discriminate | lia].
Qed.

Lemma isCold_below_seventh_of_low_reference_witness :
  isCold default_refs_cfg 83 = true <-> 7 * 83 < at_ (t_tip default_refs_cfg) 0.
Proof.
  apply (isCold_below_seventh_of_low_reference default_refs_cfg 83);
    cbn; lia.
Defined.

(** Or-ing a value below 2^n into a word shifted left by n adds it. *)
Lemma lor_shiftl_low (a b n : Z) :
  0 <= n -> 0 <= b < 2 ^ n ->
  Z.lor (Z.shiftl a n) b = a * 2 ^ n + b.
Proof.
  intros Hn Hb. rewrite Z.shiftl_mul_pow2 by lia.
  assert (Hland : Z.land (a * 2 ^ n) b = 0).
  { apply Z.bits_inj'. intros m Hm.
    rewrite Z.land_spec, Z.bits_0.
    destruct (Z.lt_ge_cases m n) as [Hlt|Hge].
    - rewrite Z.mul_pow2_bits_low by lia. reflexivity.
    - assert (Hbit : Z.testbit b m = false).
      { apply Z.testbit_false; [exact Hm|].
        rewrite Z.div_small; [reflexivity|].
        split; [lia|]. apply Z.lt_le_trans with (2 ^ n); [lia|].
        apply Z.pow_le_mono_r; lia. }
      rewrite Hbit. apply andb_false_r. }
  rewrite <- Z.lxor_lor by exact Hland.
  symmetry. apply Z.add_nocarry_lxor. exact Hland.
Qed.

Lemma land_1023 (a : Z) : Z.land a 1023 = a mod 1024.
Proof. change 1023 with (Z.ones 10). rewrite Z.land_ones by lia. reflexivity. Qed.

Lemma pack_unpack (x y z : Z) :
  0 <= x <= 1023 -> 0 <= y <= 1023 -> 0 <= z <= 1023 ->
  unpack (Z.lor (u32 (Z.shiftl
            (Z.lor (u32 (Z.shiftl (Z.land z 1023) 10)) (Z.land y 1023)) 10)) x)
  = [x; y; z].
Proof.
  intros Hx Hy Hz.
  rewrite !land_1023, (Z.mod_small z), (Z.mod_small y) by lia.
  rewrite (Z.shiftl_mul_pow2 z) by lia. change (2 ^ 10) with 1024.
  rewrite (u32_small (z * 1024)) by lia.
  replace (z * 1024) with (Z.shiftl z 10)
    by (rewrite Z.shiftl_mul_pow2 by lia; reflexivity).
  rewrite (lor_shiftl_low z y 10) by (change (2 ^ 10) with 1024; lia).
  change (2 ^ 10) with 1024.
  rewrite (Z.shiftl_mul_pow2 (z * 1024 + y)) by lia. change (2 ^ 10) with 1024.
  rewrite (u32_small ((z * 1024 + y) * 1024)) by lia.
  replace ((z * 1024 + y) * 1024) with (Z.shiftl (z * 1024 + y) 10)
    by (rewrite Z.shiftl_mul_pow2 by lia; reflexivity).
  rewrite (lor_shiftl_low (z * 1024 + y) x 10) by (change (2 ^ 10) with 1024; lia).
  change (2 ^ 10) with 1024.
  unfold unpack. rewrite !land_1023, !Z.shiftr_div_pow2 by lia.
  change (2 ^ 10) with 1024.
  assert (E1 : ((z * 1024 + y) * 1024 + x) / 1024 = z * 1024 + y)
    by (rewrite Z.div_add_l by lia; rewrite (Z.div_small x) by lia; lia).
  assert (E2 : (z * 1024 + y) / 1024 = z)
    by (rewrite Z.div_add_l by lia; rewrite (Z.div_small y) by lia; lia).
  rewrite E1, E2.
  f_equal; [|f_equal; [|f_equal]].
  - rewrite Z.add_comm, Z.mod_add by lia. apply Z.mod_small. lia.
  - rewrite Z.add_comm, Z.mod_add by lia. apply Z.mod_small. lia.
  - apply Z.mod_small. lia.
Qed.

(** The packed calibration word gives back what was saved: for raw values
    within 10 bits, the word [saveCalibrationData] stores unpacks, 10 bits
    a field with the low field first, to tip[0], tip[1] and tip[2] capped
    at [max_temp]; the presets of the record are untouched. *)
Theorem saved_calibration_word_unpacks (st : t) (x y z : Z) :
  0 <= x <= 1023 -> 0 <= y <= 1023 -> 0 <= z <= 1023 ->
  let c := CONFIG.Config (base (fst (saveCalibrationData st [x; y; z]))) in
  unpack (CONFIG.calibration c) = [x; y; Z.min z max_temp]
  /\ CONFIG.temp c = tempPreset st /\ CONFIG.fan c = fanPreset st.
Proof.
  intros Hx Hy Hz c. unfold c, saveCalibrationData, max_temp, tempPreset, fanPreset.
  cbn [at_ lookup list_lookup from_option id].
  destruct (Z.gtb_spec z 900) as [Hbig|Hsmall];
    cbn [at_ lookup list_lookup from_option id list_insert insert
         base set_cfg CONFIG.Config CONFIG.set_Config CONFIG.calibration
         CONFIG.temp CONFIG.fan fst];
    (split; [|split; reflexivity]).
  - rewrite pack_unpack by lia. do 2 f_equal. f_equal. lia.
  - rewrite pack_unpack by lia. do 2 f_equal. f_equal. lia.
Qed.

Lemma saved_calibration_word_unpacks_witness :
  let c := CONFIG.Config
             (base (fst (saveCalibrationData default_refs_cfg [500; 600; 950]))) in
  unpack (CONFIG.calibration c) = [500; 600; Z.min 950 max_temp]
  /\ CONFIG.temp c = tempPreset default_refs_cfg
  /\ CONFIG.fan c = fanPreset default_refs_cfg.
Proof.
  apply (saved_calibration_word_unpacks default_refs_cfg 500 600 950); lia.
Defined.

(** A device whose first slot does not decode gives the built-in defaults:
    [HOTGUN_CFG::init] then returns with the references 587, 751, 850, the
    preset temperature 600 and the preset fan duty 64, both addresses at 0
    and writing enabled. *)
Theorem init_falls_back_to_defaults (e : EEPROM.t) (st : t) :
  length (t_tip st) = 3%nat ->
  CONFIG.readRecord e (CONFIG.record_size (base st)) 0 = None ->
  exists st',
    init e st = Some st'
    /\ t_tip st' = def_tip
    /\ tempPreset st' = def_temp /\ fanPreset st' = def_fan
    /\ CONFIG.rAddr (base st') = 0 /\ CONFIG.wAddr (base st') = 0
    /\ CONFIG.can_write (base st') = true.
Proof.
  intros Hlen Hbad.
  assert (Hinit : CONFIG.init e (base st)
                  = Some (CONFIG.mk true (CONFIG.buffRecords (base st)) 0 0
                            (EEPROM.length e) 0 (CONFIG.record_size (base st))
                            (CONFIG.Config (base st)))).
  { unfold CONFIG.init, CONFIG.scan_all. cbn [CONFIG.scan].
    rewrite Hbad. destruct (0 <? EEPROM.length e); reflexivity. }
  unfold init. rewrite Hinit. unfold CONFIG.load.
  cbn [CONFIG.record_size CONFIG.rAddr]. rewrite Hbad.
  cbv beta iota zeta.
  cbn [negb snd setDefaults t_tip base set_cfg CONFIG.set_Config
       CONFIG.set_nextRecID CONFIG.Config CONFIG.calibration].
  assert (E0 : Z.land pack_defaults 1023 = 587) by reflexivity.
  assert (E1 : Z.land (Z.shiftr pack_defaults 10) 1023 = 751) by reflexivity.
  assert (E2 : Z.land (Z.shiftr (Z.shiftr pack_defaults 10) 10) 1023 = 850)
    by reflexivity.
  rewrite E0, E1, E2. cbn [Z.geb Z.compare Pos.compare Pos.compare_cont orb].
  destruct (t_tip st) as [|a [|b [|c [|]]]] eqn:Ett; try discriminate Hlen.
  eexists. split; [reflexivity|].
  unfold tempPreset, fanPreset. cbn. auto 10.
Qed.

Lemma init_falls_back_to_defaults_witness :
  exists st',
    init (erased 1024 EEPROM.Aliased) unloaded_cfg = Some st'
    /\ t_tip st' = def_tip
    /\ tempPreset st' = def_temp /\ fanPreset st' = def_fan
    /\ CONFIG.rAddr (base st') = 0 /\ CONFIG.wAddr (base st') = 0
    /\ CONFIG.can_write (base st') = true.
Proof.
  apply (init_falls_back_to_defaults (erased 1024 EEPROM.Aliased) unloaded_cfg);
    vm_compute; reflexivity.
Defined.

End CalibrationCurve.

(** ** CONFIG: what [save] writes and [load] reads back *)
Section SaveLoad.
Import Mach CONFIG.

Lemma write_in_range (e : EEPROM.t) (a v : Z) :
  0 <= a < Z.of_nat (length (EEPROM.cells e)) ->
  EEPROM.write e a v
  = EEPROM.mk (EEPROM.policy e) (<[Z.to_nat a := u8 v]> (EEPROM.cells e)).
Proof. intros H. unfold EEPROM.write, EEPROM.phys. ztest. reflexivity. Qed.

Lemma read_in_range (e : EEPROM.t) (a : Z) :
  0 <= a < Z.of_nat (length (EEPROM.cells e)) ->
  EEPROM.read e a = default 255 (EEPROM.cells e !! Z.to_nat a).
Proof. intros H. unfold EEPROM.read, EEPROM.phys. ztest. reflexivity. Qed.

Lemma write_length (e : EEPROM.t) (a v : Z) :
  length (EEPROM.cells (EEPROM.write e a v)) = length (EEPROM.cells e).
Proof.
  unfold EEPROM.write. destruct (EEPROM.phys e a); [|reflexivity].
  cbn. apply length_insert.
Qed.

Lemma read_write (e : EEPROM.t) (a v j : Z) :
  0 <= a < Z.of_nat (length (EEPROM.cells e)) ->
  0 <= j < Z.of_nat (length (EEPROM.cells e)) ->
  EEPROM.read (EEPROM.write e a v) j
  = if j =? a then u8 v else EEPROM.read e j.
Proof.
  intros Ha Hj.
  rewrite (read_in_range (EEPROM.write e a v)) by (rewrite write_length; lia).
  rewrite write_in_range, read_in_range by lia. cbn [EEPROM.cells].
  destruct (Z.eqb_spec j a) as [->|Hne].
  - rewrite list_lookup_insert_eq by lia. reflexivity.
  - rewrite list_lookup_insert_ne by lia. reflexivity.
Qed.

Lemma write_bytes_length (bs : list Z) : forall (e : EEPROM.t) (a : Z),
  length (EEPROM.cells (write_bytes e a bs)) = length (EEPROM.cells e).
Proof.
  induction bs as [|b bs IH]; intros e a; cbn [write_bytes]; [reflexivity|].
  rewrite IH. apply write_length.
Qed.

(** A cell after a run of consecutive writes. *)
Lemma read_write_bytes (bs : list Z) : forall (e : EEPROM.t) (a j : Z),
  0 <= a -> a + Z.of_nat (length bs) <= Z.of_nat (length (EEPROM.cells e)) ->
  0 <= j < Z.of_nat (length (EEPROM.cells e)) ->
  EEPROM.read (write_bytes e a bs) j
  = if (a <=? j) && (j <? a + Z.of_nat (length bs))
    then u8 (at_ bs (Z.to_nat (j - a)))
    else EEPROM.read e j.
Proof.
  induction bs as [|b bs IH]; intros e a j Ha Hfit Hj; cbn [write_bytes length].
  - rewrite Z.add_0_r.
    destruct (Z.leb_spec a j), (Z.ltb_spec j a); try lia; reflexivity.
  - cbn [length] in Hfit. rewrite Nat2Z.inj_succ in *.
    rewrite IH by (rewrite ?write_length; lia).
    rewrite read_write by lia.
    destruct (Z.eqb_spec j a) as [->|Hne].
    + ztest. cbn [andb]. replace (a - a) with 0 by lia. reflexivity.
    + destruct (Z.leb_spec (a + 1) j) as [H1|H1];
        destruct (Z.ltb_spec j (a + 1 + Z.of_nat (length bs))) as [H2|H2];
        try (exfalso; lia);
        ztest; cbn [andb]; try reflexivity.
      replace (Z.to_nat (j - a)) with (S (Z.to_nat (j - (a + 1)))) by lia.
      reflexivity.
Qed.

Lemma summ_low_byte (s n : Z) : u8 (s + n) = u8 (s + Z.land n 255).
Proof.
  change 255 with (Z.ones 8). rewrite Z.land_ones by lia.
  unfold u8. change (2 ^ 8) with 256. symmetry. apply Zplus_mod_idemp_r.
Qed.

(** The first loop of [save]. *)
Lemma save_id_loop (e : EEPROM.t) (a n : Z) :
  0 <= a -> a + 4 <= 65535 ->
  fold_left save_id_byte (seq 0 4) (e, a, 0, n)
  = (write_bytes e a (id_bytes n), a + 4,
     fold_left summ_step (id_bytes n) 0,
     Z.shiftr (Z.shiftr (Z.shiftr (Z.shiftr n 8) 8) 8) 8).
Proof.
  intros Ha Hfit. cbn [seq fold_left save_id_byte id_bytes write_bytes].
  rewrite (u16_small (a + 1)) by lia.
  rewrite (u16_small (a + 1 + 1)) by lia.
  rewrite (u16_small (a + 1 + 1 + 1)) by lia.
  rewrite (u16_small (a + 1 + 1 + 1 + 1)) by lia.
  replace (a + 1 + 1 + 1 + 1) with (a + 4) by lia.
  unfold summ_step. rewrite <- !summ_low_byte. reflexivity.
Qed.

(** The second loop of [save]. *)
Lemma save_cfg_loop (bs : list Z) : forall (e : EEPROM.t) (a s : Z),
  0 <= a -> a + Z.of_nat (length bs) <= 65535 ->
  fold_left save_cfg_byte bs (e, a, s)
  = (write_bytes e a bs, a + Z.of_nat (length bs), fold_left summ_step bs s).
Proof.
  induction bs as [|b bs IH]; intros e a s Ha Hfit;
    cbn [fold_left save_cfg_byte write_bytes length].
  - rewrite Z.add_0_r. reflexivity.
  - cbn [length] in Hfit. rewrite Nat2Z.inj_succ in *.
    rewrite (u16_small (a + 1)) by lia.
    rewrite IH by lia. replace (a + 1 + Z.of_nat (length bs))
      with (a + Z.succ (Z.of_nat (length bs))) by lia. reflexivity.
Qed.

(** [save] in closed form. *)
Lemma save_closed_form (e : EEPROM.t) (st : t) :
  can_write st = true -> record_size st = 16 ->
  0 <= wAddr st -> wAddr st + 16 <= 65535 ->
  save e st
  = (saved_device e st,
     mk true (buffRecords st) (wAddr st)
        (if wAddr st + 16 >? EEPROM.length (saved_device e st)
         then 0 else wAddr st + 16)
        (eLength st) (u32 (written_id st + 1)) 16 (Config st),
     true).
Proof.
  intros Hcw Hrs Hw Hfit. unfold save, saved_device. rewrite Hcw, Hrs.
  cbn [negb]. fold (written_id st).
  rewrite save_id_loop by lia.
  rewrite save_cfg_loop by (cbn [cfg_bytes length]; lia).
  rewrite (u16_small (wAddr st + 16 - 1)) by lia.
  rewrite (u16_small (wAddr st + 16)) by lia.
  replace (wAddr st + 16 - 1) with (wAddr st + 15) by lia.
  unfold checksum. rewrite fold_left_app. reflexivity.
Qed.

Lemma u8_u8 (x : Z) : u8 (u8 x) = u8 x.
Proof. unfold u8. apply Z.mod_mod. lia. Qed.

Lemma u8_land_255 (n : Z) : u8 (Z.land n 255) = Z.land n 255.
Proof.
  change 255 with (Z.ones 8). rewrite Z.land_ones by lia.
  unfold u8. change (2 ^ 8) with 256. apply Z.mod_mod. lia.
Qed.

Lemma u8_checksum (l : list Z) : u8 (checksum l) = checksum l.
Proof. unfold checksum. apply u8_u8. Qed.

(** A cell of the slot that [save] has written. *)
Lemma read_saved (e : EEPROM.t) (st : t) (k : Z) :
  0 <= wAddr st ->
  wAddr st + 16 <= Z.of_nat (length (EEPROM.cells e)) ->
  0 <= k < 16 ->
  EEPROM.read (saved_device e st) (wAddr st + k)
  = if k =? 15
    then checksum (id_bytes (written_id st) ++ cfg_bytes (Config st))
    else if (4 <=? k) && (k <? 12)
         then u8 (at_ (cfg_bytes (Config st)) (Z.to_nat (k - 4)))
         else if k <? 4
              then u8 (at_ (id_bytes (written_id st)) (Z.to_nat k))
              else EEPROM.read e (wAddr st + k).
Proof.
  intros Hw Hfit Hk. unfold saved_device. cbv zeta.
  set (w := wAddr st) in *.
  set (idb := id_bytes (written_id st)).
  set (cfgb := cfg_bytes (Config st)).
  assert (Li : length idb = 4%nat) by reflexivity.
  assert (Lc : length cfgb = 8%nat) by reflexivity.
  rewrite read_write by (rewrite !write_bytes_length; lia).
  rewrite u8_checksum.
  rewrite read_write_bytes by (rewrite ?write_bytes_length, ?Lc; lia).
  rewrite read_write_bytes by (rewrite ?Li; lia).
  rewrite Li, Lc.
  assert (Hcase : k = 15 \/ 4 <= k < 12 \/ k < 4 \/ 12 <= k < 15) by lia.
  destruct Hcase as [H|[H|[H|H]]]; ztest; cbn [andb]; ztest; cbn [andb].
  - reflexivity.
  - replace (w + k - (w + 4)) with (k - 4) by lia. reflexivity.
  - replace (w + k - w) with k by lia. reflexivity.
  - reflexivity.
Qed.

Lemma lor_u32_shift (a b : Z) :
  0 <= a -> a * 256 < 4294967296 -> 0 <= b < 256 ->
  Z.lor (u32 (Z.shiftl a 8)) b = a * 256 + b.
Proof.
  intros Ha Hfit Hb.
  assert (E : Z.shiftl a 8 = a * 256)
    by (rewrite Z.shiftl_mul_pow2 by lia; reflexivity).
  rewrite u32_small by (rewrite E; lia).
  rewrite lor_shiftl_low by (change (2 ^ 8) with 256; lia).
  reflexivity.
Qed.

(** The ID loop of [readRecord] on the bytes that [save] wrote. *)
Lemma id_decode (n : Z) :
  0 <= n < 4294967296 ->
  fold_left (fun ts b => Z.lor (u32 (Z.shiftl ts 8)) b) (rev (id_bytes n)) 0 = n.
Proof.
  intros Hn. unfold id_bytes. cbn [rev app fold_left].
  change 255 with (Z.ones 8). rewrite !Z.land_ones by lia.
  rewrite !Z.shiftr_div_pow2 by lia. change (2 ^ 8) with 256.
  pose proof (Z.div_mod n 256 ltac:(lia)) as D0.
  pose proof (Z.div_mod (n / 256) 256 ltac:(lia)) as D1.
  pose proof (Z.div_mod (n / 256 / 256) 256 ltac:(lia)) as D2.
  pose proof (Z.div_mod (n / 256 / 256 / 256) 256 ltac:(lia)) as D3.
  set (b0 := n mod 256) in *. set (b1 := (n / 256) mod 256) in *.
  set (b2 := (n / 256 / 256) mod 256) in *.
  set (b3 := (n / 256 / 256 / 256) mod 256) in *.
  assert (0 <= b0 < 256) by (apply Z.mod_pos_bound; lia).
  assert (0 <= b1 < 256) by (apply Z.mod_pos_bound; lia).
  assert (0 <= b2 < 256) by (apply Z.mod_pos_bound; lia).
  assert (0 <= b3 < 256) by (apply Z.mod_pos_bound; lia).
  assert (E3 : b3 = n / 256 / 256 / 256)
    by (unfold b3; apply Z.mod_small; lia).
  rewrite (lor_u32_shift 0 b3) by lia.
  rewrite (lor_u32_shift (0 * 256 + b3) b2) by lia.
  rewrite (lor_u32_shift ((0 * 256 + b3) * 256 + b2) b1) by lia.
  rewrite (lor_u32_shift (((0 * 256 + b3) * 256 + b2) * 256 + b1) b0) by lia.
  lia.
Qed.

(** [memcpy] out of the record gives the structure that was written. *)
Lemma cfg_bytes_round_trip (c : cfg) :
  cfg_in_range c -> cfg_of_bytes (List.map u8 (cfg_bytes c)) = c.
Proof.
  destruct c as [cal tmp fn off]. intros (Hc & Ht & Hf & Ho). cbn in Hc, Ht, Hf, Ho.
  unfold cfg_of_bytes, cfg_bytes.
  cbn [List.map at_ lookup list_lookup from_option id
       calibration temp fan off_timeout].
  rewrite !u8_u8. unfold u8.
  rewrite !Z.shiftr_div_pow2, !Z.shiftl_mul_pow2 by lia.
  change (2 ^ 8) with 256. change (2 ^ 16) with 65536.
  change (2 ^ 24) with 16777216.
  f_equal; Z.to_euclidean_division_equations; lia.
Qed.

(** The slot that [save] has written decodes to the ID and the
    configuration that were saved. *)
Lemma readRecord_saved (e : EEPROM.t) (st : t) :
  0 <= wAddr st ->
  wAddr st + 16 <= Z.of_nat (length (EEPROM.cells e)) ->
  Z.of_nat (length (EEPROM.cells e)) <= 65535 ->
  0 <= nextRecID st < 4294967296 ->
  cfg_in_range (Config st) ->
  readRecord (saved_device e st) 16 (wAddr st)
  = Some (written_id st, Config st).
Proof.
  intros Hw Hfit Hdev Hid Hcfg.
  assert (Hwid : 0 <= written_id st < 4294967296)
    by (unfold written_id; destruct (nextRecID st =? 0); lia).
  unfold readRecord. change (Z.to_nat 16) with 16%nat.
  cbn [seq List.map].
  repeat match goal with
    | |- context [Z.of_nat ?n] =>
        let v := eval vm_compute in (Z.of_nat n) in change (Z.of_nat n) with v
    end.
  repeat match goal with
    | |- context [u16 (wAddr st + ?k)] =>
        rewrite (u16_small (wAddr st + k)) by lia;
        rewrite (read_saved e st k Hw Hfit ltac:(lia))
    end.
  cbn [Z.eqb Pos.eqb Z.leb Z.ltb Z.compare Pos.compare Pos.compare_cont andb].
  repeat match goal with
    | |- context [Z.to_nat ?z] =>
        let v := eval vm_compute in (Z.to_nat z) in change (Z.to_nat z) with v
    end.
  pose proof (id_decode (written_id st) ltac:(lia)) as Hd.
  pose proof (cfg_bytes_round_trip (Config st) Hcfg) as Hc.
  unfold id_bytes, cfg_bytes in *.
  cbn [rev app fold_left List.map] in Hd, Hc. rewrite !u8_u8 in Hc.
  cbn [firstn skipn app fold_left at_ lookup list_lookup from_option id].
  rewrite !u8_land_255, !u8_u8, Z.eqb_refl, Hd, Hc. reflexivity.
Qed.

Lemma save_load (e : EEPROM.t) (st : t) :
  can_write st = true -> record_size st = 16 ->
  0 <= wAddr st ->
  wAddr st + 16 <= Z.of_nat (length (EEPROM.cells e)) ->
  Z.of_nat (length (EEPROM.cells e)) <= 65535 ->
  0 <= nextRecID st < 4294967295 ->
  cfg_in_range (Config st) ->
  snd (save e st) = true
  /\ rAddr (snd (fst (save e st))) = wAddr st
  /\ nextRecID (snd (fst (save e st))) = written_id st + 1
  /\ snd (load (fst (fst (save e st))) (snd (fst (save e st)))) = true
  /\ Config (fst (load (fst (fst (save e st))) (snd (fst (save e st)))))
     = Config st
  /\ nextRecID (fst (load (fst (fst (save e st))) (snd (fst (save e st)))))
     = written_id st + 1.
Proof.
  intros Hcw Hrs Hw Hfit Hdev Hid Hcfg.
  assert (Hwid : 0 <= written_id st < 4294967295)
    by (unfold written_id; destruct (Z.eqb_spec (nextRecID st) 0); lia).
  rewrite save_closed_form by (assumption || lia).
  cbn [fst snd rAddr nextRecID]. unfold load. cbn [rAddr record_size].
  rewrite readRecord_saved by (assumption || lia).
  cbn [fst snd Config nextRecID].
  rewrite !u32_small by lia. repeat split; reflexivity.
Qed.

(** Save then load gives back what was saved: with writing enabled and the
    write address on a slot inside the device, [save] succeeds, points the
    read address at the slot it wrote, and a following [load] succeeds,
    restores the same configuration and leaves the next record ID one above
    the ID just written. *)
Theorem save_then_load_round_trip (e : EEPROM.t) (st : t) :
  can_write st = true -> record_size st = 16 ->
  0 <= wAddr st ->
  wAddr st + 16 <= Z.of_nat (length (EEPROM.cells e)) ->
  Z.of_nat (length (EEPROM.cells e)) <= 65535 ->
  0 <= nextRecID st < 4294967295 ->
  cfg_in_range (Config st) ->
  snd (save e st) = true
  /\ rAddr (snd (fst (save e st))) = wAddr st
  /\ nextRecID (snd (fst (save e st))) = written_id st + 1
  /\ snd (load (fst (fst (save e st))) (snd (fst (save e st)))) = true
  /\ Config (fst (load (fst (fst (save e st))) (snd (fst (save e st)))))
     = Config st
  /\ nextRecID (fst (load (fst (fst (save e st))) (snd (fst (save e st)))))
     = written_id st + 1.
Proof. apply save_load. Qed.

Lemma save_then_load_round_trip_witness :
  let e := fst (after_saves EEPROM.Aliased 2) in
  snd (save e writer_at_32) = true
  /\ rAddr (snd (fst (save e writer_at_32))) = wAddr writer_at_32
  /\ nextRecID (snd (fst (save e writer_at_32))) = written_id writer_at_32 + 1
  /\ snd (load (fst (fst (save e writer_at_32))) (snd (fst (save e writer_at_32))))
     = true
  /\ Config (fst (load (fst (fst (save e writer_at_32)))
                       (snd (fst (save e writer_at_32)))))
     = Config writer_at_32
  /\ nextRecID (fst (load (fst (fst (save e writer_at_32)))
                          (snd (fst (save e writer_at_32)))))
     = written_id writer_at_32 + 1.
Proof.
  apply (save_then_load_round_trip (fst (after_saves EEPROM.Aliased 2))
           writer_at_32);
    try reflexivity; try (vm_compute; intuition discriminate).
Defined.

(** [save] writes inside its slot only: the device keeps its length, and
    every cell other than the first 12 bytes and the last byte of the slot
    at the write address reads as before. *)
Theorem save_writes_only_its_slot (e : EEPROM.t) (st : t) (j : Z) :
  can_write st = true -> record_size st = 16 ->
  0 <= wAddr st ->
  wAddr st + 16 <= Z.of_nat (length (EEPROM.cells e)) ->
  Z.of_nat (length (EEPROM.cells e)) <= 65535 ->
  0 <= j < Z.of_nat (length (EEPROM.cells e)) ->
  ~ (wAddr st <= j < wAddr st + 12) -> j <> wAddr st + 15 ->
  length (EEPROM.cells (fst (fst (save e st)))) = length (EEPROM.cells e)
  /\ EEPROM.read (fst (fst (save e st))) j = EEPROM.read e j.
Proof.
  intros Hcw Hrs Hw Hfit Hdev Hj Hout H15.
  rewrite save_closed_form by (assumption || lia). cbn [fst].
  unfold saved_device. cbv zeta.
  split; [rewrite write_length, !write_bytes_length; reflexivity|].
  rewrite read_write by (rewrite !write_bytes_length; lia).
  rewrite read_write_bytes
    by (rewrite ?write_bytes_length; cbn [cfg_bytes length]; lia).
  rewrite read_write_bytes by (cbn [id_bytes length]; lia).
  cbn [cfg_bytes id_bytes length].
  destruct (Z.eqb_spec j (wAddr st + 15)); [lia|].
  destruct (Z.leb_spec (wAddr st + 4) j), (Z.ltb_spec j (wAddr st + 4 + Z.of_nat 8));
    cbn [andb]; try lia;
    destruct (Z.leb_spec (wAddr st) j), (Z.ltb_spec j (wAddr st + Z.of_nat 4));
    cbn [andb]; try lia; reflexivity.
Qed.

Lemma save_writes_only_its_slot_witness :
  let e := fst (after_saves EEPROM.Aliased 2) in
  length (EEPROM.cells (fst (fst (save e writer_at_32)))) = length (EEPROM.cells e)
  /\ EEPROM.read (fst (fst (save e writer_at_32))) 20 = EEPROM.read e 20.
Proof.
  apply (save_writes_only_its_slot (fst (after_saves EEPROM.Aliased 2))
           writer_at_32 20);
    try reflexivity; try (vm_compute; intuition discriminate).
Defined.

(** A saved preset is read back clamped: [HOTGUN_CFG::save] stores the
    temperature constrained to 50..900 and the fan duty, and a following
    [load] succeeds and returns that temperature, that duty and the
    calibration word unchanged. *)
Theorem preset_save_then_load (e : EEPROM.t) (st : HOTGUN_CFG.t) (temp fanSpeed : Z) :
  can_write (HOTGUN_CFG.base st) = true ->
  record_size (HOTGUN_CFG.base st) = 16 ->
  0 <= wAddr (HOTGUN_CFG.base st) ->
  wAddr (HOTGUN_CFG.base st) + 16 <= Z.of_nat (length (EEPROM.cells e)) ->
  Z.of_nat (length (EEPROM.cells e)) <= 65535 ->
  0 <= nextRecID (HOTGUN_CFG.base st) < 4294967295 ->
  cfg_in_range (Config (HOTGUN_CFG.base st)) ->
  0 <= fanSpeed <= 255 ->
  let e' := fst (HOTGUN_CFG.save e st temp fanSpeed) in
  let st' := snd (HOTGUN_CFG.save e st temp fanSpeed) in
  snd (load e' (HOTGUN_CFG.base st')) = true
  /\ CONFIG.temp (Config (fst (load e' (HOTGUN_CFG.base st'))))
     = constrain temp HOTGUN_CFG.min_temp HOTGUN_CFG.max_temp
  /\ CONFIG.fan (Config (fst (load e' (HOTGUN_CFG.base st')))) = fanSpeed
  /\ calibration (Config (fst (load e' (HOTGUN_CFG.base st'))))
     = calibration (Config (HOTGUN_CFG.base st))
  /\ HOTGUN_CFG.min_temp <= HOTGUN_CFG.tempPreset st' <= HOTGUN_CFG.max_temp.
Proof.
  intros Hcw Hrs Hw Hfit Hdev Hid (Hc & Ht & Hf & Ho) Hfan e' st'.
  assert (Hclamp : HOTGUN_CFG.min_temp
                   <= constrain temp HOTGUN_CFG.min_temp HOTGUN_CFG.max_temp
                   <= HOTGUN_CFG.max_temp)
    by (apply constrain_range; unfold HOTGUN_CFG.min_temp, HOTGUN_CFG.max_temp; lia).
  set (c1 := mkcfg (calibration (Config (HOTGUN_CFG.base st)))
                   (constrain temp HOTGUN_CFG.min_temp HOTGUN_CFG.max_temp)
                   fanSpeed (off_timeout (Config (HOTGUN_CFG.base st)))).
  set (b1 := set_Config (HOTGUN_CFG.base st) c1).
  destruct (save_load e b1) as (_ & _ & _ & L1 & L2 & _);
    try assumption.
  { unfold b1, c1, cfg_in_range, set_Config.
    cbn [Config calibration CONFIG.temp fan off_timeout].
    unfold HOTGUN_CFG.min_temp, HOTGUN_CFG.max_temp in *. lia. }
  assert (E : HOTGUN_CFG.save e st temp fanSpeed
              = (fst (fst (save e b1)),
                 HOTGUN_CFG.mk (snd (fst (save e b1))) (HOTGUN_CFG.t_tip st))).
  { unfold HOTGUN_CFG.save, HOTGUN_CFG.set_cfg. cbn [HOTGUN_CFG.base HOTGUN_CFG.t_tip].
    fold c1. fold b1. destruct (save e b1) as [[e2 b2] ok]. reflexivity. }
  unfold e', st'. rewrite E. cbn [fst snd HOTGUN_CFG.base].
  rewrite L1, L2. unfold HOTGUN_CFG.tempPreset. cbn [HOTGUN_CFG.base].
  rewrite save_closed_form
    by first [assumption
             | change (wAddr b1) with (wAddr (HOTGUN_CFG.base st)); lia].
  cbn [fst snd Config]. unfold b1, c1. cbn.
  repeat split; try reflexivity; apply Hclamp.
Qed.

Lemma preset_save_then_load_witness :
  let e := fst (after_saves EEPROM.Aliased 2) in
  let e' := fst (HOTGUN_CFG.save e preset_writer 1000 80) in
  let st' := snd (HOTGUN_CFG.save e preset_writer 1000 80) in
  snd (load e' (HOTGUN_CFG.base st')) = true
  /\ CONFIG.temp (Config (fst (load e' (HOTGUN_CFG.base st'))))
     = constrain 1000 HOTGUN_CFG.min_temp HOTGUN_CFG.max_temp
  /\ CONFIG.fan (Config (fst (load e' (HOTGUN_CFG.base st')))) = 80
  /\ calibration (Config (fst (load e' (HOTGUN_CFG.base st'))))
     = calibration (Config (HOTGUN_CFG.base preset_writer))
  /\ HOTGUN_CFG.min_temp <= HOTGUN_CFG.tempPreset st' <= HOTGUN_CFG.max_temp.
Proof.
  apply (preset_save_then_load (fst (after_saves EEPROM.Aliased 2))
           preset_writer 1000 80);
    try reflexivity; try (vm_compute; intuition discriminate).
Defined.

End SaveLoad.
